(** * tls-constraints: admission of certificate signing requests

    A shallow embedding of [src/charm.py] (the CSR filters, the admission
    controller [_is_certificate_allowed], the relation resolver
    [_get_relation_id_for_csr] and the Juju event handlers of
    [TLSConstraintsCharm]) together with the properties of the
    specification that concern them.

    Conventions of the embedding.
    - A Python [int] is a [Z]; [bytes] is a list of [Byte.byte]; a [dict]
      is a [gmap]; a [set] is a [gset].  A [str] is a [string] holding the
      octets of its UTF-8 form, a lone surrogate (which UTF-8 proper does
      not have) in its three-octet form ED A0..BF 80..BF.
    - The charm's methods run in the monad [M]: they read and update an
      explicit [World] (configuration, relations, outstanding requests,
      unit status, log, outbound library calls) and either return a value
      or raise an exception.
    - The [cryptography] parser [x509.load_pem_x509_csr] is a parameter of
      the development. *)

From Stdlib Require Import ZArith Ascii String List.
From Stdlib.Strings Require Import Byte.
From stdpp Require Import base option gmap strings list fin_maps fin_sets.

Local Open Scope Z_scope.
Local Open Scope string_scope.
Local Open Scope list_scope.

(** ** Data model *)

Abbreviation str := string (only parsing).
Abbreviation bytes := (list Byte.byte) (only parsing).

(** The octets of a [str]: the bytes of its UTF-8 form. *)
Definition utf8 (s : str) : bytes := list_byte_of_string s.

(** Whether a [str] holds a surrogate code point (U+D800 to U+DFFF): the
    octet ED followed by an octet from A0 to BF. *)
Fixpoint has_surrogate (s : str) : bool :=
  match s with
  | String a ((String b _) as rest) =>
      ((Ascii.N_of_ascii a =? 237)%N
       && (160 <=? Ascii.N_of_ascii b)%N && (Ascii.N_of_ascii b <=? 191)%N)
      || has_surrogate rest
  | _ => false
  end.

(** The two fields of the library's [RequirerCSR] that the charm reads. *)
Module RequirerCSR.
Record t := mk { relation_id : Z; csr : str }.
End RequirerCSR.

(** The reserved identifiers document: kind ("dns", "ip", "oid") to a
    mapping from identifier to the relation id that owns it. *)
Abbreviation ReservedIdentifiers := (gmap string (gmap string Z)) (only parsing).

(** A relation, seen through [relation.data[relation.app]].  The value
    stored under a key is kept in decoded form: [json.loads (json.dumps m)]
    is [m] for a [dict[str, dict[str, int]]]. *)
Module Relation.
Record t := mk { app_data : gmap string ReservedIdentifiers }.
End Relation.

(** *** The parsed CSR, as far as the filters look at it *)

(** An [ipaddress] object, carried with its canonical [str()] form. *)
Record ip_address := { str_ip : string }.

(** An [x509.ObjectIdentifier]. *)
Record ObjectIdentifier := { dotted_string : string }.

Inductive GeneralName :=
| DNSName (value : string)
| IPAddress (value : ip_address)
| RegisteredID (value : ObjectIdentifier)
| OtherGeneralName (value : string).

(** [san.get_values_for_type(x509.DNSName)] and its two siblings. *)
Definition get_values_for_DNSName (san : list GeneralName) : list string :=
  omap (λ g, match g with DNSName v => Some v | _ => None end) san.

Definition get_values_for_IPAddress (san : list GeneralName) : list ip_address :=
  omap (λ g, match g with IPAddress v => Some v | _ => None end) san.

Definition get_values_for_RegisteredID (san : list GeneralName) : list ObjectIdentifier :=
  omap (λ g, match g with RegisteredID v => Some v | _ => None end) san.

(** [subject_common_names] are the values of
    [subject.get_attributes_for_oid(NameOID.COMMON_NAME)];
    [subject_alternative_name] is [None] when the extension is absent. *)
Record CertificateSigningRequest := {
  subject_common_names : list string;
  subject_alternative_name : option (list GeneralName);
}.

(** *** Log records, outbound calls, unit status *)

Inductive Level := WARNING | ERROR.

Inductive LogArg :=
| ArgInt (n : Z)
| ArgStr (s : string)
| ArgIds (ids : gset Z).

Record LogRecord := { levelname : Level; msg : string; args : list LogArg }.

(** Calls into the TLS certificates library and the framework, in the
    order they were made. *)
Inductive Call :=
| request_certificate_creation (csr : bytes) (is_ca : bool)
| request_certificate_revocation (csr : bytes)
| set_relation_certificate
    (certificate certificate_signing_request ca : str) (chain : list str)
    (relation_id : Z)
| remove_certificate (certificate : str)
| revoke_all_certificates
| defer.

Inductive Status :=
| UnknownStatus
| ActiveStatus
| BlockedStatus (message : string).

Inductive Method := Evaluate | Callback.

(** *** Events of the TLS certificates library *)

Module CertificateCreationRequestEvent.
Record t := mk { certificate_signing_request : str; relation_id : Z; is_ca : bool }.
End CertificateCreationRequestEvent.

Module CertificateRevocationRequestEvent.
Record t := mk { certificate_signing_request : str }.
End CertificateRevocationRequestEvent.

Module CertificateAvailableEvent.
Record t := mk {
  certificate : str;
  certificate_signing_request : str;
  ca : str;
  chain : list str;
}.
End CertificateAvailableEvent.

Module CertificateInvalidatedEvent.
Record t := mk { reason : str; certificate : str }.
End CertificateInvalidatedEvent.

(** *** The world the charm runs in *)

(** [invocations] is a ghost field: it records each call of a filter's
    method made by the admission controller. *)
Record World := {
  config : gmap string bool;
  relations : gmap string Relation.t;
  requirer_csrs : list RequirerCSR.t;
  unit_status : Status;
  calls : list Call;
  log : list LogRecord;
  invocations : list (string * Method);
}.

Definition set_relations (r : gmap string Relation.t) (w : World) : World :=
  {| config := config w; relations := r; requirer_csrs := requirer_csrs w;
     unit_status := unit_status w; calls := calls w; log := log w;
     invocations := invocations w |}.

Definition set_unit_status (s : Status) (w : World) : World :=
  {| config := config w; relations := relations w;
     requirer_csrs := requirer_csrs w; unit_status := s; calls := calls w;
     log := log w; invocations := invocations w |}.

Definition add_call (c : Call) (w : World) : World :=
  {| config := config w; relations := relations w;
     requirer_csrs := requirer_csrs w; unit_status := unit_status w;
     calls := calls w ++ [c]; log := log w; invocations := invocations w |}.

Definition add_log (r : LogRecord) (w : World) : World :=
  {| config := config w; relations := relations w;
     requirer_csrs := requirer_csrs w; unit_status := unit_status w;
     calls := calls w; log := log w ++ [r]; invocations := invocations w |}.

Definition add_invocation (i : string * Method) (w : World) : World :=
  {| config := config w; relations := relations w;
     requirer_csrs := requirer_csrs w; unit_status := unit_status w;
     calls := calls w; log := log w; invocations := invocations w ++ [i] |}.

(** ** The monad of the charm's methods *)

Inductive exn := ValueError | ExtensionNotFound | KeyError | UnicodeEncodeError.

Inductive outcome (A : Type) :=
| Return (a : A)
| Raise (e : exn).
Arguments Return {A} a.
Arguments Raise {A} e.

Definition M (A : Type) : Type := World → outcome A * World.

Definition ret {A} (a : A) : M A := λ w, (Return a, w).

Definition bind {A B} (m : M A) (k : A → M B) : M B :=
  λ w, match m w with
       | (Return a, w') => k a w'
       | (Raise e, w') => (Raise e, w')
       end.

Definition raise {A} (e : exn) : M A := λ w, (Raise e, w).

Definition gets {A} (f : World → A) : M A := λ w, (Return (f w), w).

Definition modify (f : World → World) : M unit := λ w, (Return tt, f w).

Notation "'let*' x ':=' m 'in' k" := (bind m (λ x, k))
  (at level 10, x name, m at level 100, k at level 200, only parsing).
Notation "m ';;;' k" := (bind m (λ _, k))
  (at level 100, k at level 200, right associativity, only parsing).

(** [s.encode()]: UTF-8, strict; a surrogate cannot be encoded. *)
Definition encode (s : str) : M bytes :=
  if has_surrogate s then raise UnicodeEncodeError else ret (utf8 s).

Definition logger_warning (m : string) (a : list LogArg) : M unit :=
  modify (add_log {| levelname := WARNING; msg := m; args := a |}).

Definition logger_error (m : string) (a : list LogArg) : M unit :=
  modify (add_log {| levelname := ERROR; msg := m; args := a |}).

Definition PEER_RELATION_NAME := "reserved-identifiers".
Definition RELATION_NAME_TO_TLS_REQUIRER := "certificates-downstream".
Definition RELATION_NAME_TO_TLS_PROVIDER := "certificates-upstream".

(** [self.model.get_relation(name)]: the relation is referred to by the
    name of its endpoint. *)
Definition relation_reference (name : string) (w : World) : option string :=
  match relations w !! name with Some _ => Some name | None => None end.

Definition get_relation (name : string) : M (option string) :=
  gets (relation_reference name).

(** ** The filters *)

(** The [CsrFilter] protocol. *)
Record CsrFilter := {
  class_name : string;
  evaluate : bytes → Z → list RequirerCSR.t → M bool;
  callback : bytes → Z → M unit;
}.

(** *** [LimitToOneRequest] *)

Definition relevant_csrs (relation_id : Z) (requirer_csrs : list RequirerCSR.t)
  : list RequirerCSR.t :=
  filter (λ c, RequirerCSR.relation_id c = relation_id) requirer_csrs.

Definition LimitToOneRequest_evaluate
    (csr : bytes) (relation_id : Z) (requirer_csrs : list RequirerCSR.t) : M bool :=
  if decide (1 < length (relevant_csrs relation_id requirer_csrs))%nat then
    logger_warning
      "Denied CSR for relation_id: %d. Only a single CSR is allowed for application."
      [ArgInt relation_id] ;;;
    ret false
  else ret true.

Definition LimitToOneRequest_callback (csr : bytes) (relation_id : Z) : M unit :=
  ret tt.

Definition LimitToOneRequest : CsrFilter :=
  {| class_name := "LimitToOneRequest";
     evaluate := LimitToOneRequest_evaluate;
     callback := LimitToOneRequest_callback |}.

(** *** [LimitToFirstRequester] *)

(** Python's [a | b] on dictionaries: the entries of [b] win. *)
Definition dict_or (a b : gmap string Z) : gmap string Z := b ∪ a.

(** The comprehension [{k: v for k in keys}]. *)
Definition dict_of_keys (keys : list string) (v : Z) : gmap string Z :=
  list_to_map ((λ k, (k, v)) <$> keys).

(** [identifier in reserved.get(kind, {}) and
     reserved[kind][identifier] != relation_id]. *)
Definition reserved_by_other
    (reserved : ReservedIdentifiers) (kind : string) (relation_id : Z)
    (identifier : string) : bool :=
  match default ∅ (reserved !! kind) !! identifier with
  | Some owner => bool_decide (owner ≠ relation_id)
  | None => false
  end.

Definition DENY_MSG := "CSR denied for relation ID %d, %s '%s' already requested.".

Section Charm.

(** [x509.load_pem_x509_csr]: [None] stands for the [ValueError] the
    library raises on bytes that are not a PEM encoded CSR. *)
Variable load_pem_x509_csr : bytes → option CertificateSigningRequest.

Definition x509_load_pem_x509_csr (data : bytes) : M CertificateSigningRequest :=
  match load_pem_x509_csr data with
  | Some csr_object => ret csr_object
  | None => raise ValueError
  end.

(** [csr_object.extensions.get_extension_for_class(
      x509.SubjectAlternativeName).value] *)
Definition get_extension_for_SubjectAlternativeName
    (csr_object : CertificateSigningRequest) : M (list GeneralName) :=
  match subject_alternative_name csr_object with
  | Some san => ret san
  | None => raise ExtensionNotFound
  end.

(** [relation.data[relation.app]], read through the reference. *)
Definition relation_data (relation : string) : M (gmap string ReservedIdentifiers) :=
  gets (λ w, match relations w !! relation with
             | Some r => Relation.app_data r
             | None => ∅
             end).

Definition _get_reserved_identifiers (_relation : option string)
  : M ReservedIdentifiers :=
  match _relation with
  | None => ret ∅
  | Some relation =>
      let* data := relation_data relation in
      ret (default ∅ (data !! "reserved-identifiers"))
  end.

Definition _set_reserved_identifiers
    (_relation : option string) (new_mapping : ReservedIdentifiers) : M unit :=
  match _relation with
  | None => ret tt
  | Some relation =>
      modify (λ w,
        set_relations
          (alter (λ r, Relation.mk
                         (<["reserved-identifiers" := new_mapping]>
                            (Relation.app_data r)))
                 relation (relations w)) w)
  end.

Definition _update_reserved_identifier_mapping
    (_relation : option string) (csr : bytes) (relation_id : Z) : M unit :=
  let* csr_object := x509_load_pem_x509_csr csr in
  let* san := get_extension_for_SubjectAlternativeName csr_object in
  let dnss := get_values_for_DNSName san in
  let ips := str_ip <$> get_values_for_IPAddress san in
  let oids := dotted_string <$> get_values_for_RegisteredID san in
  let* cur_mapping := _get_reserved_identifiers _relation in
  let cur_mapping :=
    <["dns" := dict_or (default ∅ (cur_mapping !! "dns"))
                       (dict_of_keys dnss relation_id)]> cur_mapping in
  let cur_mapping :=
    <["ip" := dict_or (default ∅ (cur_mapping !! "ip"))
                      (dict_of_keys ips relation_id)]> cur_mapping in
  let cur_mapping :=
    <["oid" := dict_or (default ∅ (cur_mapping !! "oid"))
                       (dict_of_keys oids relation_id)]> cur_mapping in
  _set_reserved_identifiers _relation cur_mapping.

Definition LimitToFirstRequester_evaluate
    (_relation : option string)
    (csr : bytes) (relation_id : Z) (requirer_csrs : list RequirerCSR.t) : M bool :=
  match _relation with
  | None =>
      logger_error
        "LimitToFirstRequester can not access peer relation yet.denying all csrs until peer relation joined"
        [] ;;;
      ret false
  | Some _ =>
      let* csr_object := x509_load_pem_x509_csr csr in
      let subjects := subject_common_names csr_object in
      let* san := get_extension_for_SubjectAlternativeName csr_object in
      let* reserved_identifiers := _get_reserved_identifiers _relation in
      match List.find (reserved_by_other reserved_identifiers "dns" relation_id)
                      (get_values_for_DNSName san ++ subjects) with
      | Some dns =>
          logger_warning DENY_MSG [ArgInt relation_id; ArgStr "DNS"; ArgStr dns] ;;;
          ret false
      | None =>
      match List.find (reserved_by_other reserved_identifiers "ip" relation_id)
                      ((str_ip <$> get_values_for_IPAddress san) ++ subjects) with
      | Some ip =>
          logger_warning DENY_MSG [ArgInt relation_id; ArgStr "IP"; ArgStr ip] ;;;
          ret false
      | None =>
      match List.find (reserved_by_other reserved_identifiers "oid" relation_id)
                      ((dotted_string <$> get_values_for_RegisteredID san)
                         ++ subjects) with
      | Some oid =>
          logger_warning DENY_MSG [ArgInt relation_id; ArgStr "OID"; ArgStr oid] ;;;
          ret false
      | None => ret true
      end end end
  end.

Definition LimitToFirstRequester_callback
    (_relation : option string) (csr : bytes) (relation_id : Z) : M unit :=
  _update_reserved_identifier_mapping _relation csr relation_id.

Definition LimitToFirstRequester (relation : option string) : CsrFilter :=
  {| class_name := "LimitToFirstRequester";
     evaluate := LimitToFirstRequester_evaluate relation;
     callback := LimitToFirstRequester_callback relation |}.

(** ** [TLSConstraintsCharm] *)

(** [_update_status] *)
Definition _update_status : M unit :=
  let* provider := get_relation RELATION_NAME_TO_TLS_PROVIDER in
  match provider with
  | None =>
      modify (set_unit_status
                (BlockedStatus "Need a relation to a TLS certificates provider"))
  | Some _ => modify (set_unit_status ActiveStatus)
  end.

(** [self.config.get(key, default)] used as a condition. *)
Definition enabled (key : string) (w : World) : bool :=
  match config w !! key with Some b => b | None => false end.

Definition config_enabled (key : string) : M bool := gets (enabled key).

Definition _get_csr_filters : M (list CsrFilter) :=
  let filters := [] in
  let* one := config_enabled "limit-to-one-request" in
  let filters := if one then filters ++ [LimitToOneRequest] else filters in
  let* first := config_enabled "limit-to-first-requester" in
  if first then
    let* relation := get_relation PEER_RELATION_NAME in
    ret (filters ++ [LimitToFirstRequester relation])
  else ret filters.

Definition get_requirer_csrs : M (list RequirerCSR.t) := gets requirer_csrs.

(** A method call on a filter object, as the controller makes it. *)
Definition call_evaluate (f : CsrFilter)
    (csr : bytes) (relation_id : Z) (all_requirers_csrs : list RequirerCSR.t)
  : M bool :=
  modify (add_invocation (class_name f, Evaluate)) ;;;
  evaluate f csr relation_id all_requirers_csrs.

Definition call_callback (f : CsrFilter) (csr : bytes) (relation_id : Z) : M unit :=
  modify (add_invocation (class_name f, Callback)) ;;;
  callback f csr relation_id.

(** [all(filter.evaluate(csr, relation_id, all_requirers_csrs)
         for filter in filters)]: the generator is consumed up to the
    first [False]. *)
Fixpoint all_evaluate (filters : list CsrFilter)
    (csr : bytes) (relation_id : Z) (all_requirers_csrs : list RequirerCSR.t)
  : M bool :=
  match filters with
  | [] => ret true
  | f :: filters =>
      let* ok := call_evaluate f csr relation_id all_requirers_csrs in
      if ok then all_evaluate filters csr relation_id all_requirers_csrs
      else ret false
  end.

(** [[filter.callback(csr, relation_id) for filter in filters]] *)
Fixpoint each_callback (filters : list CsrFilter) (csr : bytes) (relation_id : Z)
  : M unit :=
  match filters with
  | [] => ret tt
  | f :: filters =>
      call_callback f csr relation_id ;;;
      each_callback filters csr relation_id
  end.

Definition _is_certificate_allowed (csr : bytes) (relation_id : Z) : M bool :=
  let* filters := _get_csr_filters in
  let* all_requirers_csrs := get_requirer_csrs in
  let* ok := all_evaluate filters csr relation_id all_requirers_csrs in
  if negb ok then ret false
  else
    each_callback filters csr relation_id ;;;
    ret true.

Definition _on_certificate_creation_request
    (event : CertificateCreationRequestEvent.t) : M unit :=
  let* provider := get_relation RELATION_NAME_TO_TLS_PROVIDER in
  match provider with
  | None =>
      modify (add_call defer) ;;;
      modify (set_unit_status
                (BlockedStatus "Need a relation to a TLS certificates provider"))
  | Some _ =>
      let* csr :=
        encode
          (CertificateCreationRequestEvent.certificate_signing_request event) in
      let* allowed :=
        _is_certificate_allowed csr (CertificateCreationRequestEvent.relation_id event) in
      if allowed then
        modify (add_call (request_certificate_creation
                            csr (CertificateCreationRequestEvent.is_ca event)))
      else
        logger_warning
          "Certificate Request for relation ID %d was denied. Details in previous logs."
          [ArgInt (CertificateCreationRequestEvent.relation_id event)]
  end.

Definition _on_certificate_revocation_request
    (event : CertificateRevocationRequestEvent.t) : M unit :=
  let* provider := get_relation RELATION_NAME_TO_TLS_PROVIDER in
  match provider with
  | None =>
      modify (set_unit_status
                (BlockedStatus "Need a relation to a TLS certificates provider"))
  | Some _ =>
      let* csr :=
        encode
          (CertificateRevocationRequestEvent.certificate_signing_request event) in
      modify (add_call (request_certificate_revocation csr))
  end.

(** [relation_ids.pop()] *)
Definition set_pop (s : gset Z) : M Z :=
  match elements s with
  | x :: _ => ret x
  | [] => raise KeyError
  end.

Definition _get_relation_id_for_csr (csr : str) : M (option Z) :=
  let* all_requirers_csrs := get_requirer_csrs in
  let relation_ids : gset Z :=
    list_to_set
      (RequirerCSR.relation_id <$>
         filter (λ requirer_csr, RequirerCSR.csr requirer_csr = csr)
                all_requirers_csrs) in
  if decide (size relation_ids = 0%nat) then ret None
  else if decide (1 < size relation_ids)%nat then
    logger_error
      "Multiple requirers have the same CSR. Cannot choose one between relation IDs: %s"
      [ArgIds relation_ids] ;;;
    ret None
  else
    let* relation_id := set_pop relation_ids in
    ret (Some relation_id).

(** Python's truth value of an [Optional[int]]. *)
Definition truthy (relation_id : option Z) : bool :=
  match relation_id with
  | None => false
  | Some n => negb (n =? 0)%Z
  end.

Definition _on_certificate_available (event : CertificateAvailableEvent.t) : M unit :=
  let* relation_id :=
    _get_relation_id_for_csr
      (CertificateAvailableEvent.certificate_signing_request event) in
  if negb (truthy relation_id) then
    logger_error "Could not find the relation for CSR: %s."
      [ArgStr (CertificateAvailableEvent.certificate_signing_request event)]
  else
    match relation_id with
    | Some relation_id =>
        modify (add_call (set_relation_certificate
                  (CertificateAvailableEvent.certificate event)
                  (CertificateAvailableEvent.certificate_signing_request event)
                  (CertificateAvailableEvent.ca event)
                  (CertificateAvailableEvent.chain event)
                  relation_id))
    | None => ret tt
    end.

Definition _on_certificate_invalidated
    (event : CertificateInvalidatedEvent.t) : M unit :=
  if decide (CertificateInvalidatedEvent.reason event = "expired") then ret tt
  else modify (add_call (remove_certificate
                           (CertificateInvalidatedEvent.certificate event))).

Definition _on_all_certificates_invalidated : M unit :=
  modify (add_call revoke_all_certificates).

End Charm.

(** ** Running a method *)

Definition result {A} (m : M A) (w : World) : outcome A := fst (m w).
Definition world_after {A} (m : M A) (w : World) : World := snd (m w).

(** The log records a method appended: [log (world_after m w)] is
    [log w ++ logged m w] (lemmas below, method by method). *)
Definition logged {A} (m : M A) (w : World) : list LogRecord :=
  drop (length (log w)) (log (world_after m w)).

Definition called {A} (m : M A) (w : World) : list Call :=
  drop (length (calls w)) (calls (world_after m w)).

Definition invoked {A} (m : M A) (w : World) : list (string * Method) :=
  drop (length (invocations w)) (invocations (world_after m w)).

(** The callbacks among a list of invocations, by class name. *)
Definition callbacks_of (l : list (string * Method)) : list string :=
  omap (λ i, match snd i with Callback => Some (fst i) | Evaluate => None end) l.

(** ** Fixtures: a sample parser and sample worlds *)

Module Fixture.

Definition csr_api_a : str := "CSR CN=a.example SAN=DNS:api.a.com".
Definition csr_no_san : str := "CSR CN=b.example".
Definition csr_cn_clash : str := "CSR CN=api.a.com SAN=DNS:other.example".
Definition csr_cn_only : str := "CSR CN=api.a.com".
Definition not_a_csr : str := "not a csr".

(** The code point U+D800 on its own. *)
Definition lone_surrogate : str :=
  String "237"%char (String "160"%char (String "128"%char EmptyString)).

(** A parser that knows four requests and rejects everything else. *)
Definition load_pem_x509_csr (data : bytes) : option CertificateSigningRequest :=
  let s := string_of_list_byte data in
  if decide (s = csr_api_a) then
    Some {| subject_common_names := ["a.example"];
            subject_alternative_name := Some [DNSName "api.a.com"] |}
  else if decide (s = csr_no_san) then
    Some {| subject_common_names := ["b.example"];
            subject_alternative_name := None |}
  else if decide (s = csr_cn_clash) then
    Some {| subject_common_names := ["api.a.com"];
            subject_alternative_name := Some [DNSName "other.example"] |}
  else if decide (s = csr_cn_only) then
    Some {| subject_common_names := ["api.a.com"];
            subject_alternative_name := None |}
  else None.

Definition world
    (cfg : gmap string bool) (rels : gmap string Relation.t)
    (outstanding : list RequirerCSR.t) : World :=
  {| config := cfg; relations := rels; requirer_csrs := outstanding;
     unit_status := UnknownStatus; calls := []; log := []; invocations := [] |}.

Definition both_filters : gmap string bool :=
  {[ "limit-to-one-request" := true; "limit-to-first-requester" := true ]}.

Definition only_first : gmap string bool :=
  {[ "limit-to-first-requester" := true ]}.

Definition empty_relation : Relation.t := Relation.mk ∅.

(** Upstream provider and peer relation both present, nothing reserved. *)
Definition related : gmap string Relation.t :=
  {[ RELATION_NAME_TO_TLS_PROVIDER := empty_relation;
     PEER_RELATION_NAME := empty_relation ]}.

(** The peer relation after relation 1 has been granted "api.a.com". *)
Definition relation_reserved_for_1 : Relation.t :=
  Relation.mk {[ "reserved-identifiers" := {[ "dns" := {[ "api.a.com" := 1 ]} ]} ]}.

Definition reserved_for_1 : gmap string Relation.t :=
  {[ RELATION_NAME_TO_TLS_PROVIDER := empty_relation;
     PEER_RELATION_NAME := relation_reserved_for_1 ]}.

(** Upstream provider present, peer relation not yet joined. *)
Definition no_peer : gmap string Relation.t :=
  {[ RELATION_NAME_TO_TLS_PROVIDER := empty_relation ]}.

End Fixture.

(** ** Notions used by the statements *)

(** What a method may leave different when it only writes to the log. *)
Definition only_logged (w w' : World) : Prop :=
  config w' = config w ∧ relations w' = relations w
  ∧ requirer_csrs w' = requirer_csrs w ∧ unit_status w' = unit_status w
  ∧ calls w' = calls w ∧ invocations w' = invocations w.

(** The Reservation Table of a world: the document kept by the peer
    relation, empty while there is no peer relation or no document. *)
Definition reservation_table (w : World) : ReservedIdentifiers :=
  match relations w !! PEER_RELATION_NAME with
  | Some r => default ∅ (Relation.app_data r !! "reserved-identifiers")
  | None => ∅
  end.

(** The owner of the identifier [(kind, value)] in a table. *)
Definition owner (table : ReservedIdentifiers) (kind value : string) : option Z :=
  table !! kind ≫= λ t, t !! value.

(** The identifiers a CSR covers, in the words of the specification:
    each SAN entry under its own kind, each subject common name under
    all three kinds. *)
Definition identifier_set
    (subjects : list string) (san : list GeneralName) : list (string * string) :=
  ((λ v, ("dns", v)) <$> get_values_for_DNSName san)
  ++ ((λ v, ("ip", str_ip v)) <$> get_values_for_IPAddress san)
  ++ ((λ v, ("oid", dotted_string v)) <$> get_values_for_RegisteredID san)
  ++ (subjects ≫= λ cn, [("dns", cn); ("ip", cn); ("oid", cn)]).

(** The identifiers [callback] reserves: the SAN entries only. *)
Definition san_identifiers (san : list GeneralName) : list (string * string) :=
  ((λ v, ("dns", v)) <$> get_values_for_DNSName san)
  ++ ((λ v, ("ip", str_ip v)) <$> get_values_for_IPAddress san)
  ++ ((λ v, ("oid", dotted_string v)) <$> get_values_for_RegisteredID san).

(** The three loops of [LimitToFirstRequester.evaluate], as one test. *)
Definition conflicts
    (reserved : ReservedIdentifiers) (relation_id : Z)
    (subjects : list string) (san : list GeneralName) : bool :=
  existsb (reserved_by_other reserved "dns" relation_id)
          (get_values_for_DNSName san ++ subjects)
  || existsb (reserved_by_other reserved "ip" relation_id)
             ((str_ip <$> get_values_for_IPAddress san) ++ subjects)
  || existsb (reserved_by_other reserved "oid" relation_id)
             ((dotted_string <$> get_values_for_RegisteredID san) ++ subjects).

(** The document [_update_reserved_identifier_mapping] stores: its three
    assignments to [cur_mapping], in order. *)
Definition updated_mapping
    (cur_mapping : ReservedIdentifiers) (san : list GeneralName) (relation_id : Z)
  : ReservedIdentifiers :=
  let m1 :=
    <["dns" := dict_or (default ∅ (cur_mapping !! "dns"))
                       (dict_of_keys (get_values_for_DNSName san) relation_id)]>
      cur_mapping in
  let m2 :=
    <["ip" := dict_or (default ∅ (m1 !! "ip"))
                      (dict_of_keys (str_ip <$> get_values_for_IPAddress san)
                                    relation_id)]> m1 in
  <["oid" := dict_or (default ∅ (m2 !! "oid"))
                     (dict_of_keys (dotted_string <$> get_values_for_RegisteredID san)
                                   relation_id)]> m2.

(** The relation's application data after the document is stored. *)
Definition store_reserved_identifiers
    (new_mapping : ReservedIdentifiers) (r : Relation.t) : Relation.t :=
  Relation.mk (<["reserved-identifiers" := new_mapping]> (Relation.app_data r)).

(** A filter the controller can rely on: [evaluate] writes nothing but
    log records and reads nothing but the relations, and [callback]
    returns for a request that [evaluate] accepted. *)
Record well_behaved (f : CsrFilter) : Prop := {
  wb_evaluate_frame : ∀ csr relation_id requirer_csrs w,
    only_logged w (world_after (evaluate f csr relation_id requirer_csrs) w);
  wb_evaluate_reads : ∀ csr relation_id requirer_csrs w w',
    relations w' = relations w →
    result (evaluate f csr relation_id requirer_csrs) w'
    = result (evaluate f csr relation_id requirer_csrs) w;
  wb_callback_returns : ∀ csr relation_id requirer_csrs w w',
    result (evaluate f csr relation_id requirer_csrs) w = Return true →
    result (callback f csr relation_id) w' = Return tt;
  wb_callback_frame : ∀ csr relation_id w,
    invocations (world_after (callback f csr relation_id) w) = invocations w
    ∧ calls (world_after (callback f csr relation_id) w) = calls w
    ∧ config (world_after (callback f csr relation_id) w) = config w
    ∧ requirer_csrs (world_after (callback f csr relation_id) w) = requirer_csrs w;
}.

(** The chain [_get_csr_filters] returns in a world. *)
Definition active_filters
    (load_pem_x509_csr : bytes → option CertificateSigningRequest) (w : World)
  : list CsrFilter :=
  match result (_get_csr_filters load_pem_x509_csr) w with
  | Return filters => filters
  | Raise _ => []
  end.

(** Every filter of the chain returns [True] from [evaluate]. *)
Definition all_accept
    (filters : list CsrFilter) (csr : bytes) (relation_id : Z) (w : World) : Prop :=
  ∀ f, f ∈ filters →
       result (evaluate f csr relation_id (requirer_csrs w)) w = Return true.

(** *** The charm as a transition system *)

Inductive Event :=
| status_event
| certificate_creation_request (event : CertificateCreationRequestEvent.t)
| certificate_revocation_request (event : CertificateRevocationRequestEvent.t)
| certificate_available (event : CertificateAvailableEvent.t)
| certificate_invalidated (event : CertificateInvalidatedEvent.t)
| all_certificates_invalidated.

(** The observers registered in [__init__]. *)
Definition handle
    (load_pem_x509_csr : bytes → option CertificateSigningRequest)
    (ev : Event) : M unit :=
  match ev with
  | status_event => _update_status
  | certificate_creation_request event =>
      _on_certificate_creation_request load_pem_x509_csr event
  | certificate_revocation_request event => _on_certificate_revocation_request event
  | certificate_available event => _on_certificate_available event
  | certificate_invalidated event => _on_certificate_invalidated event
  | all_certificates_invalidated => _on_all_certificates_invalidated
  end.

(** One step of the system: the charm handles an event, or its
    environment changes configuration, relations and outstanding
    requests without writing the reserved identifiers (the peer
    application data has this charm as its only writer). *)
Inductive step (load_pem_x509_csr : bytes → option CertificateSigningRequest)
  : World → World → Prop :=
| step_handle ev w :
    step load_pem_x509_csr w (world_after (handle load_pem_x509_csr ev) w)
| step_environment w w' :
    reservation_table w' = reservation_table w →
    step load_pem_x509_csr w w'.

(** *** Further notions: unreadable requests, the resolver, the table over time *)

(** A CSR the parser refuses, or one without the extension, and the
    exception it causes. *)
Definition unreadable
    (load_pem_x509_csr : bytes → option CertificateSigningRequest)
    (csr : bytes) (e : exn) : Prop :=
  (load_pem_x509_csr csr = None ∧ e = ValueError)
  ∨ (∃ csr_object, load_pem_x509_csr csr = Some csr_object
                   ∧ subject_alternative_name csr_object = None
                   ∧ e = ExtensionNotFound).

Definition denied_record (event : CertificateCreationRequestEvent.t) : LogRecord :=
  {| levelname := WARNING;
     msg := "Certificate Request for relation ID %d was denied. Details in previous logs.";
     args := [ArgInt (CertificateCreationRequestEvent.relation_id event)] |}.

(** Relation [t] has an outstanding request with exactly these CSR
    characters. *)
Definition requested_by (csr : str) (w : World) (t : Z) : Prop :=
  ∃ r, r ∈ requirer_csrs w ∧ RequirerCSR.csr r = csr ∧ RequirerCSR.relation_id r = t.

(** The set [relation_ids] of [_get_relation_id_for_csr]. *)
Definition matching_relation_ids (csr : str) (w : World) : gset Z :=
  list_to_set
    (RequirerCSR.relation_id <$>
       filter (λ requirer_csr, RequirerCSR.csr requirer_csr = csr) (requirer_csrs w)).

Definition not_found_record (event : CertificateAvailableEvent.t) : LogRecord :=
  {| levelname := ERROR;
     msg := "Could not find the relation for CSR: %s.";
     args := [ArgStr (CertificateAvailableEvent.certificate_signing_request event)] |}.

(** Every reservation of [w] is still there, with the same owner, in [w']. *)
Definition reservations_kept (w w' : World) : Prop :=
  ∀ kind value t,
    owner (reservation_table w) kind value = Some t →
    owner (reservation_table w') kind value = Some t.

(** Every reservation of [w'] was already in [w] or belongs to
    [relation_id]. *)
Definition reservations_added_for (relation_id : Z) (w w' : World) : Prop :=
  ∀ kind value t,
    owner (reservation_table w') kind value = Some t →
    owner (reservation_table w) kind value = Some t ∨ t = relation_id.

(** A method that writes nothing but the log, and writes to it exactly
    when it returns [False]: then one record. *)
Definition quiet_unless_denied (m : M bool) (w : World) : Prop :=
  only_logged w (world_after m w)
  ∧ match result m w with
    | Return false => ∃ record, log (world_after m w) = log w ++ [record]
    | _ => log (world_after m w) = log w
    end.

(** Modelled from the spec: the outstanding requests the library hands to
    the filters ([get_requirer_csrs], which is not under src/) once a
    relation has submitted a CSR.  They are all the requirer CSRs
    received, the submitted one among them; a request that is already
    outstanding is not counted a second time. *)
Definition received
    (outstanding : list RequirerCSR.t) (relation_id : Z) (submitted : str)
  : list RequirerCSR.t :=
  if existsb (λ c, bool_decide (RequirerCSR.relation_id c = relation_id
                                ∧ RequirerCSR.csr c = submitted)) outstanding
  then outstanding
  else outstanding ++ [RequirerCSR.mk relation_id submitted].

(** ** Tactics *)

Ltac run :=
  unfold result, world_after, logged, called, invoked;
  repeat (unfold bind, ret, raise, gets, modify, logger_warning, logger_error;
          simpl).

Ltac run_first :=
  unfold LimitToFirstRequester_evaluate, LimitToFirstRequester_callback,
    _update_reserved_identifier_mapping, _get_reserved_identifiers,
    _set_reserved_identifiers, relation_data, x509_load_pem_x509_csr,
    get_extension_for_SubjectAlternativeName;
  run.

(** Case analysis along the control flow of a method. *)
Ltac cases := repeat (case_match; simplify_eq/=; trivial).

(** ** Basic facts about the monad *)

Lemma bind_Return {A B} (m : M A) (k : A → M B) w a w' :
  m w = (Return a, w') → bind m k w = k a w'.
Proof. intros H. unfold bind. by rewrite H. Qed.

Lemma bind_Raise {A B} (m : M A) (k : A → M B) w e w' :
  m w = (Raise e, w') → bind m k w = (Raise e, w').
Proof. intros H. unfold bind. by rewrite H. Qed.

(** ** [LimitToOneRequest] *)

Lemma LimitToOneRequest_evaluate_result csr relation_id requirer_csrs w :
  result (LimitToOneRequest_evaluate csr relation_id requirer_csrs) w
  = Return (bool_decide (length (relevant_csrs relation_id requirer_csrs) ≤ 1)%nat).
Proof.
  unfold LimitToOneRequest_evaluate.
  destruct (decide (1 < length (relevant_csrs relation_id requirer_csrs))%nat).
  - run. by rewrite bool_decide_eq_false_2 by lia.
  - run. by rewrite bool_decide_eq_true_2 by lia.
Qed.

(** C5. [LimitToOneRequest.evaluate] returns [False] exactly when at least
    two entries of the outstanding requests carry the requesting relation
    id; the bytes of the submitted CSR play no part in its result; and
    [callback] returns leaving the world as it found it. *)
Theorem C5_single_outstanding_counts
    (csr : bytes) (relation_id : Z) (requirer_csrs : list RequirerCSR.t) (w : World) :
  (result (evaluate LimitToOneRequest csr relation_id requirer_csrs) w = Return false
   ↔ (2 ≤ length (filter (λ c, RequirerCSR.relation_id c = relation_id) requirer_csrs))%nat)
  ∧ (result (evaluate LimitToOneRequest csr relation_id requirer_csrs) w = Return true
     ↔ (length (filter (λ c, RequirerCSR.relation_id c = relation_id) requirer_csrs) < 2)%nat)
  ∧ (∀ csr' : bytes,
       result (evaluate LimitToOneRequest csr' relation_id requirer_csrs) w
       = result (evaluate LimitToOneRequest csr relation_id requirer_csrs) w)
  ∧ callback LimitToOneRequest csr relation_id w = (Return tt, w).
Proof.
  simpl. rewrite !LimitToOneRequest_evaluate_result.
  fold (relevant_csrs relation_id requirer_csrs).
  repeat split.
  - intros [=H]. apply bool_decide_eq_false in H. lia.
  - intros H. f_equal. apply bool_decide_eq_false. lia.
  - intros [=H]. apply bool_decide_eq_true in H. lia.
  - intros H. f_equal. apply bool_decide_eq_true. lia.
  - intros csr'. by rewrite LimitToOneRequest_evaluate_result.
Qed.

Lemma LimitToOneRequest_evaluate_allows csr relation_id requirer_csrs w :
  (length (relevant_csrs relation_id requirer_csrs) ≤ 1)%nat →
  LimitToOneRequest_evaluate csr relation_id requirer_csrs w = (Return true, w).
Proof.
  intros H. unfold LimitToOneRequest_evaluate.
  destruct (decide _) as [Hlt|_]; [lia | reflexivity].
Qed.

Lemma relevant_csrs_app relation_id l1 l2 :
  relevant_csrs relation_id (l1 ++ l2)
  = relevant_csrs relation_id l1 ++ relevant_csrs relation_id l2.
Proof. unfold relevant_csrs. apply filter_app. Qed.

Lemma already_received outstanding relation_id (submitted : str) :
  existsb (λ c, bool_decide (RequirerCSR.relation_id c = relation_id
                             ∧ RequirerCSR.csr c = submitted)) outstanding = true
  ↔ ∃ c, c ∈ relevant_csrs relation_id outstanding ∧ RequirerCSR.csr c = submitted.
Proof.
  rewrite existsb_exists. unfold relevant_csrs. split.
  - intros (c & Hin & Hc). apply bool_decide_eq_true in Hc as [Hid Hcsr].
    exists c. split; [|done]. apply list_elem_of_filter.
    split; [done|]. by apply list_elem_of_In.
  - intros (c & Hin & Hcsr). apply list_elem_of_filter in Hin as [Hid Hin].
    exists c. split; [by apply list_elem_of_In|]. by apply bool_decide_eq_true.
Qed.

(** C4. A relation has exactly one outstanding request and submits a CSR;
    the outstanding requests handed to [evaluate] are the requests
    received, the submitted one among them.  Then
    [LimitToOneRequest.evaluate] denies a CSR that is distinct from the
    existing one and allows the existing one submitted again. *)
Theorem C4_single_outstanding_request
    (submitted : str) (relation_id : Z) (outstanding : list RequirerCSR.t)
    (existing : RequirerCSR.t) (w : World) :
  relevant_csrs relation_id outstanding = [existing] →
  let snapshot := received outstanding relation_id submitted in
  (submitted ≠ RequirerCSR.csr existing →
   result (evaluate LimitToOneRequest (utf8 submitted) relation_id snapshot) w
   = Return false)
  ∧ (submitted = RequirerCSR.csr existing →
     result (evaluate LimitToOneRequest (utf8 submitted) relation_id snapshot) w
     = Return true).
Proof.
  intros Hone snapshot. subst snapshot. cbn [evaluate LimitToOneRequest].
  rewrite LimitToOneRequest_evaluate_result. unfold received.
  pose proof (already_received outstanding relation_id submitted) as Hrec.
  rewrite Hone in Hrec. split.
  - intros Hne. destruct (existsb _ outstanding).
    + destruct (proj1 Hrec eq_refl) as (c & Hin & Hcsr).
      apply list_elem_of_singleton in Hin. congruence.
    + rewrite relevant_csrs_app, Hone. unfold relevant_csrs.
      rewrite filter_cons_True by reflexivity. reflexivity.
  - intros Heq. destruct (existsb _ outstanding) eqn:Hex.
    + by rewrite Hone.
    + assert (false = true) as Habs; [|done].
      apply Hrec. exists existing. split; [apply list_elem_of_here|done].
Qed.

Lemma C4_single_outstanding_request_witness :
  let outstanding := [RequirerCSR.mk 1 "csr-A"; RequirerCSR.mk 2 "csr-C"] in
  result (evaluate LimitToOneRequest (utf8 "csr-B") 1 (received outstanding 1 "csr-B"))
         (Fixture.world ∅ ∅ []) = Return false
  ∧ result (evaluate LimitToOneRequest (utf8 "csr-A") 1
              (received outstanding 1 "csr-A"))
           (Fixture.world ∅ ∅ []) = Return true.
Proof.
  intros outstanding. split.
  - apply (C4_single_outstanding_request "csr-B" 1 outstanding
             (RequirerCSR.mk 1 "csr-A") (Fixture.world ∅ ∅ [])).
    + reflexivity.
    + discriminate.
  - apply (C4_single_outstanding_request "csr-A" 1 outstanding
             (RequirerCSR.mk 1 "csr-A") (Fixture.world ∅ ∅ [])).
    + reflexivity.
    + reflexivity.
Defined.

(** ** [LimitToFirstRequester] *)

(** C6. Without a peer relation [LimitToFirstRequester.evaluate] returns
    [False] for every CSR, every relation id and every list of outstanding
    requests, and it writes an error record to the log; the filter the
    charm builds in a world without peer relation is that filter. *)
Theorem C6_fail_closed_without_peer
    (load_pem_x509_csr : bytes → option CertificateSigningRequest)
    (csr : bytes) (relation_id : Z) (requirer_csrs : list RequirerCSR.t) (w : World) :
  (relations w !! PEER_RELATION_NAME = None →
   result (get_relation PEER_RELATION_NAME) w = Return None)
  ∧ result (evaluate (LimitToFirstRequester load_pem_x509_csr None)
              csr relation_id requirer_csrs) w = Return false
  ∧ ∃ record,
      levelname record = ERROR
      ∧ logged (evaluate (LimitToFirstRequester load_pem_x509_csr None)
                  csr relation_id requirer_csrs) w = [record].
Proof.
  split; [|split].
  - intros H. unfold result, get_relation, relation_reference, gets. simpl.
    by rewrite H.
  - reflexivity.
  - eexists. split; [|run; rewrite drop_app_length; reflexivity]. reflexivity.
Qed.

Lemma find_existsb {A} (p : A → bool) (l : list A) :
  match List.find p l with
  | Some x => p x = true ∧ existsb p l = true
  | None => existsb p l = false
  end.
Proof.
  induction l as [|a l IH]; simpl; [done|].
  destruct (p a) eqn:Hp; simpl; [done|].
  destruct (List.find p l); [|done]. destruct IH. done.
Qed.

Section FirstRequester.

Variable load_pem_x509_csr : bytes → option CertificateSigningRequest.

Lemma LimitToFirstRequester_evaluate_frame _relation csr relation_id requirer_csrs w :
  only_logged w
    (world_after
       (LimitToFirstRequester_evaluate load_pem_x509_csr _relation
          csr relation_id requirer_csrs) w).
Proof.
  unfold only_logged. run_first. cases; done.
Qed.

Lemma LimitToFirstRequester_evaluate_reads
    _relation csr relation_id requirer_csrs w w' :
  relations w' = relations w →
  result (LimitToFirstRequester_evaluate load_pem_x509_csr _relation
            csr relation_id requirer_csrs) w'
  = result (LimitToFirstRequester_evaluate load_pem_x509_csr _relation
              csr relation_id requirer_csrs) w.
Proof.
  intros H. run_first.
  destruct _relation as [relation|]; simpl; [|done].
  destruct (load_pem_x509_csr csr) as [csr_object|]; simpl; [|done].
  destruct (subject_alternative_name csr_object) as [san|]; simpl; [|done].
  rewrite H. cases; done.
Qed.

(** The result of [evaluate] on a request that parses and carries the
    extension, with the peer relation at hand. *)
Lemma LimitToFirstRequester_evaluate_result
    relation r csr relation_id requirer_csrs w csr_object san :
  relations w !! relation = Some r →
  load_pem_x509_csr csr = Some csr_object →
  subject_alternative_name csr_object = Some san →
  result (LimitToFirstRequester_evaluate load_pem_x509_csr (Some relation)
            csr relation_id requirer_csrs) w
  = Return (negb (conflicts
                    (default ∅ (Relation.app_data r !! "reserved-identifiers"))
                    relation_id (subject_common_names csr_object) san)).
Proof.
  intros Hr Hcsr Hsan. run_first. rewrite Hcsr. simpl. rewrite Hsan. simpl.
  rewrite Hr. unfold conflicts.
  set (reserved := default ∅ (Relation.app_data r !! "reserved-identifiers")).
  pose proof (find_existsb (reserved_by_other reserved "dns" relation_id)
                (get_values_for_DNSName san ++ subject_common_names csr_object)) as H1.
  pose proof (find_existsb (reserved_by_other reserved "ip" relation_id)
                ((str_ip <$> get_values_for_IPAddress san)
                   ++ subject_common_names csr_object)) as H2.
  pose proof (find_existsb (reserved_by_other reserved "oid" relation_id)
                ((dotted_string <$> get_values_for_RegisteredID san)
                   ++ subject_common_names csr_object)) as H3.
  destruct (List.find _ _) in H1 |- *.
  { destruct H1 as [_ ->]. reflexivity. }
  rewrite H1.
  destruct (List.find _ _) in H2 |- *.
  { destruct H2 as [_ ->]. reflexivity. }
  rewrite H2.
  destruct (List.find _ _) in H3 |- *.
  { destruct H3 as [_ ->]. reflexivity. }
  rewrite H3. reflexivity.
Qed.

(** [evaluate] raises exactly on bytes that do not parse and on requests
    without the extension (with the peer relation at hand). *)
Lemma LimitToFirstRequester_evaluate_raises
    relation csr relation_id requirer_csrs w e :
  result (LimitToFirstRequester_evaluate load_pem_x509_csr (Some relation)
            csr relation_id requirer_csrs) w = Raise e
  ↔ (load_pem_x509_csr csr = None ∧ e = ValueError)
    ∨ (∃ csr_object, load_pem_x509_csr csr = Some csr_object
                     ∧ subject_alternative_name csr_object = None
                     ∧ e = ExtensionNotFound).
Proof.
  run_first.
  destruct (load_pem_x509_csr csr) as [csr_object|] eqn:Hcsr; simpl.
  - destruct (subject_alternative_name csr_object) as [san|] eqn:Hsan; simpl.
    + split.
      * cases; discriminate.
      * intros [[? _]|(c & [= <-] & ? & _)]; congruence.
    + split.
      * intros [= <-]. right. eauto.
      * intros [[? _]|(c & _ & _ & ->)]; [congruence|done].
  - split.
    + intros [= <-]. by left.
    + intros [[_ ->]|(c & ? & _)]; [done|congruence].
Qed.

End FirstRequester.

(** *** The owners [evaluate] looks up *)

Lemma reserved_by_other_owner reserved kind relation_id identifier :
  reserved_by_other reserved kind relation_id identifier = true
  ↔ ∃ t, owner reserved kind identifier = Some t ∧ t ≠ relation_id.
Proof.
  unfold reserved_by_other, owner.
  destruct (reserved !! kind) as [m|]; simpl.
  - destruct (m !! identifier) as [o|]; simpl.
    + rewrite bool_decide_eq_true. split; [eauto|]. by intros (t & [= <-] & ?).
    + split; [done|]. by intros (t & ? & _).
  - rewrite lookup_empty. split; [done|]. by intros (t & ? & _).
Qed.

Lemma existsb_reserved_by_other reserved kind relation_id (l : list string) :
  existsb (reserved_by_other reserved kind relation_id) l = true
  ↔ ∃ v t, v ∈ l ∧ owner reserved kind v = Some t ∧ t ≠ relation_id.
Proof.
  rewrite existsb_exists. split.
  - intros (v & Hin & H). apply reserved_by_other_owner in H as (t & ? & ?).
    exists v, t. by rewrite list_elem_of_In.
  - intros (v & t & Hin & ? & ?). exists v. rewrite <- list_elem_of_In.
    split; [done|]. apply reserved_by_other_owner. eauto.
Qed.

Lemma elem_of_identifier_set kind value subjects san :
  (kind, value) ∈ identifier_set subjects san
  ↔ (kind = "dns" ∧ value ∈ get_values_for_DNSName san ++ subjects)
    ∨ (kind = "ip" ∧ value ∈ (str_ip <$> get_values_for_IPAddress san) ++ subjects)
    ∨ (kind = "oid"
       ∧ value ∈ (dotted_string <$> get_values_for_RegisteredID san) ++ subjects).
Proof.
  unfold identifier_set.
  rewrite !elem_of_app, !list_elem_of_fmap, list_elem_of_bind.
  split.
  - intros [(v & [= -> ->] & ?)|[(v & [= -> ->] & ?)|[(v & [= -> ->] & ?)|(cn & H & ?)]]].
    + left. split; [done|]. by left.
    + right; left. split; [done|]. left. eauto.
    + right; right. split; [done|]. left. eauto.
    + rewrite !elem_of_cons, elem_of_nil in H.
      destruct H as [[= -> ->]|[[= -> ->]|[[= -> ->]|[]]]].
      * left. split; [done|]. by right.
      * right; left. split; [done|]. by right.
      * right; right. split; [done|]. by right.
  - intros [[-> [?|?]]|[[-> [(v & -> & ?)|?]]|[-> [(v & -> & ?)|?]]]].
    + left. eauto.
    + do 3 right. exists value. split; [|done]. rewrite !elem_of_cons. eauto.
    + right; left. eauto.
    + do 3 right. exists value. split; [|done]. rewrite !elem_of_cons. eauto.
    + right; right; left. eauto.
    + do 3 right. exists value. split; [|done]. rewrite !elem_of_cons. eauto.
Qed.

Lemma conflicts_identifier_set reserved relation_id subjects san :
  conflicts reserved relation_id subjects san = true
  ↔ ∃ kind value t,
      (kind, value) ∈ identifier_set subjects san
      ∧ owner reserved kind value = Some t ∧ t ≠ relation_id.
Proof.
  unfold conflicts. rewrite !orb_true_iff, !existsb_reserved_by_other. split.
  - intros [[(v & t & ? & ? & ?)|(v & t & ? & ? & ?)]|(v & t & ? & ? & ?)].
    + exists "dns", v, t. rewrite elem_of_identifier_set. eauto 6.
    + exists "ip", v, t. rewrite elem_of_identifier_set. eauto 6.
    + exists "oid", v, t. rewrite elem_of_identifier_set. eauto 8.
  - intros (kind & v & t & Hin & ? & ?).
    apply elem_of_identifier_set in Hin as [[-> ?]|[[-> ?]|[-> ?]]]; eauto 8.
Qed.

(** C2, as the code has it.  With the peer relation at hand:
    on a CSR that parses and carries the Subject Alternative Name
    extension, [LimitToFirstRequester.evaluate] returns [False] exactly
    when some identifier of the CSR (its SAN DNS names, SAN IP addresses in
    string form and SAN OID dotted strings, each under its own kind, and
    its subject common names under each of the kinds dns, ip and oid) has
    an owner in the Reservation Table that is not the requesting relation
    id, and returns [True] otherwise; on bytes that do not parse it raises
    [ValueError]. *)
Theorem C2_first_claim_wins_evaluate
    (load_pem_x509_csr : bytes → option CertificateSigningRequest)
    (csr : bytes) (relation_id : Z) (requirer_csrs : list RequirerCSR.t) (w : World)
    (r : Relation.t) :
  relations w !! PEER_RELATION_NAME = Some r →
  let verdict :=
    result (evaluate (LimitToFirstRequester load_pem_x509_csr (Some PEER_RELATION_NAME))
              csr relation_id requirer_csrs) w in
  (load_pem_x509_csr csr = None → verdict = Raise ValueError)
  ∧ (∀ csr_object san,
       load_pem_x509_csr csr = Some csr_object →
       subject_alternative_name csr_object = Some san →
       let claimed_by_other :=
         ∃ kind value t,
           (kind, value) ∈ identifier_set (subject_common_names csr_object) san
           ∧ owner (reservation_table w) kind value = Some t
           ∧ t ≠ relation_id in
       (verdict = Return false ↔ claimed_by_other)
       ∧ (verdict = Return true ↔ ¬ claimed_by_other)).
Proof.
  intros Hr verdict. subst verdict. cbn [evaluate LimitToFirstRequester]. split.
  - intros Hnone.
    apply (LimitToFirstRequester_evaluate_raises load_pem_x509_csr).
    by left.
  - intros csr_object san Hcsr Hsan. cbv zeta.
    rewrite (LimitToFirstRequester_evaluate_result _ _ r _ _ _ _ csr_object san)
      by done.
    unfold reservation_table. rewrite Hr.
    rewrite <- conflicts_identifier_set.
    destruct (conflicts _ _ _ _); simpl; split; split; try done.
Qed.

(** C2, as the specification words it, fails.  With the peer relation
    present and "api.a.com" owned by relation 1: a CSR without the
    Subject Alternative Name extension whose common name is "api.a.com"
    makes [evaluate] raise [ExtensionNotFound], for relation 2 (where the
    claim says [False]) and for relation 1 (where it says [True]); and
    bytes that do not parse make it raise [ValueError] (where the claim
    says [True]). *)
Lemma C2_evaluate_raises_instead :
  let F := LimitToFirstRequester Fixture.load_pem_x509_csr (Some PEER_RELATION_NAME) in
  let w := Fixture.world Fixture.only_first Fixture.reserved_for_1 [] in
  owner (reservation_table w) "dns" "api.a.com" = Some 1
  ∧ Fixture.load_pem_x509_csr (utf8 Fixture.csr_cn_only)
    = Some {| subject_common_names := ["api.a.com"];
              subject_alternative_name := None |}
  ∧ result (evaluate F (utf8 Fixture.csr_cn_only) 2 []) w = Raise ExtensionNotFound
  ∧ result (evaluate F (utf8 Fixture.csr_cn_only) 1 []) w = Raise ExtensionNotFound
  ∧ result (evaluate F (utf8 Fixture.not_a_csr) 2 []) w = Raise ValueError.
Proof.
  intros F w. split; [|split; [|split; [|split]]]; vm_compute; reflexivity.
Qed.

(** *** What [callback] writes *)

Lemma set_relations_same w : set_relations (relations w) w = w.
Proof. by destruct w. Qed.

Lemma store_reserved_identifiers_same m r :
  Relation.app_data r !! "reserved-identifiers" = Some m →
  store_reserved_identifiers m r = r.
Proof.
  intros H. destruct r as [d]. unfold store_reserved_identifiers. simpl in *.
  by rewrite insert_id.
Qed.

Lemma alter_present {V} (f : V → V) (k : string) (m : gmap string V) v :
  m !! k = Some v → alter f k m = <[k := f v]> m.
Proof.
  intros H. apply map_eq. intros i. rewrite lookup_alter, lookup_insert.
  repeat case_decide; simplify_eq; try done. by rewrite H.
Qed.

Section FirstRequesterCallback.

Variable load_pem_x509_csr : bytes → option CertificateSigningRequest.

Lemma LimitToFirstRequester_callback_run relation r csr relation_id w csr_object san :
  relations w !! relation = Some r →
  load_pem_x509_csr csr = Some csr_object →
  subject_alternative_name csr_object = Some san →
  LimitToFirstRequester_callback load_pem_x509_csr (Some relation) csr relation_id w
  = (Return tt,
     set_relations
       (<[relation :=
            store_reserved_identifiers
              (updated_mapping
                 (default ∅ (Relation.app_data r !! "reserved-identifiers"))
                 san relation_id) r]> (relations w)) w).
Proof.
  intros Hr Hcsr Hsan. run_first. rewrite Hcsr. simpl. rewrite Hsan. simpl.
  rewrite Hr. f_equal. f_equal.
  by rewrite (alter_present _ _ _ r).
Qed.

(** [callback] leaves everything but the relations alone, whatever
    happens. *)
Lemma LimitToFirstRequester_callback_frame _relation csr relation_id w :
  let w' := world_after
              (LimitToFirstRequester_callback load_pem_x509_csr _relation
                 csr relation_id) w in
  config w' = config w ∧ requirer_csrs w' = requirer_csrs w
  ∧ unit_status w' = unit_status w ∧ calls w' = calls w ∧ log w' = log w
  ∧ invocations w' = invocations w.
Proof. run_first. cases; done. Qed.

(** An accepted request is one [callback] can parse again. *)
Lemma LimitToFirstRequester_accepts_parsed
    _relation csr relation_id requirer_csrs w :
  result (LimitToFirstRequester_evaluate load_pem_x509_csr _relation
            csr relation_id requirer_csrs) w = Return true →
  ∃ relation csr_object san,
    _relation = Some relation
    ∧ load_pem_x509_csr csr = Some csr_object
    ∧ subject_alternative_name csr_object = Some san.
Proof.
  run_first. destruct _relation as [relation|]; simpl; [|done].
  destruct (load_pem_x509_csr csr) as [csr_object|] eqn:Hcsr; simpl; [|done].
  destruct (subject_alternative_name csr_object) as [san|] eqn:Hsan; simpl; [|done].
  intros _. by exists relation, csr_object, san.
Qed.

Lemma LimitToFirstRequester_callback_returns _relation csr relation_id w :
  (∃ csr_object san,
     load_pem_x509_csr csr = Some csr_object
     ∧ subject_alternative_name csr_object = Some san) →
  result (LimitToFirstRequester_callback load_pem_x509_csr _relation
            csr relation_id) w = Return tt.
Proof.
  intros (csr_object & san & Hcsr & Hsan).
  run_first. rewrite Hcsr. simpl. rewrite Hsan. simpl. cases; done.
Qed.

End FirstRequesterCallback.

(** *** The stored document *)

Lemma dict_of_keys_lookup keys v k :
  dict_of_keys keys v !! k = if decide (k ∈ keys) then Some v else None.
Proof.
  unfold dict_of_keys. induction keys as [|a keys IH].
  - rewrite decide_False by set_solver. apply lookup_empty.
  - rewrite fmap_cons, list_to_map_cons. cbn [fst snd].
    rewrite lookup_insert. destruct (decide (a = k)) as [->|Hne].
    + by rewrite decide_True by apply list_elem_of_here.
    + rewrite IH. destruct (decide (k ∈ keys)).
      * by rewrite decide_True by by apply list_elem_of_further.
      * rewrite decide_False; [done|]. rewrite elem_of_cons. by intros [->|?].
Qed.

Lemma dict_or_lookup a b k :
  dict_or a b !! k = match b !! k with Some x => Some x | None => a !! k end.
Proof.
  unfold dict_or. rewrite lookup_union.
  destruct (b !! k), (a !! k); reflexivity.
Qed.

Lemma dict_or_absorb a b : dict_or (dict_or a b) b = dict_or a b.
Proof.
  apply map_eq. intros k. rewrite !dict_or_lookup. by destruct (b !! k).
Qed.

Lemma elem_of_san_identifiers kind value san :
  (kind, value) ∈ san_identifiers san
  ↔ (kind = "dns" ∧ value ∈ get_values_for_DNSName san)
    ∨ (kind = "ip" ∧ value ∈ str_ip <$> get_values_for_IPAddress san)
    ∨ (kind = "oid" ∧ value ∈ dotted_string <$> get_values_for_RegisteredID san).
Proof.
  unfold san_identifiers. rewrite !elem_of_app, !list_elem_of_fmap. split.
  - intros [(v & [= -> ->] & ?)|[(v & [= -> ->] & ?)|(v & [= -> ->] & ?)]]; eauto 8.
  - intros [[-> ?]|[[-> (v & -> & ?)]|[-> (v & -> & ?)]]]; eauto 8.
Qed.

Lemma san_identifiers_covered kind value subjects san :
  (kind, value) ∈ san_identifiers san → (kind, value) ∈ identifier_set subjects san.
Proof.
  rewrite elem_of_san_identifiers, elem_of_identifier_set, !elem_of_app.
  intros [[-> ?]|[[-> ?]|[-> ?]]]; eauto 8.
Qed.

Lemma updated_mapping_lookup table san relation_id :
  let m := updated_mapping table san relation_id in
  m !! "dns" = Some (dict_or (default ∅ (table !! "dns"))
                             (dict_of_keys (get_values_for_DNSName san) relation_id))
  ∧ m !! "ip" = Some (dict_or (default ∅ (table !! "ip"))
                              (dict_of_keys (str_ip <$> get_values_for_IPAddress san)
                                            relation_id))
  ∧ m !! "oid" = Some (dict_or (default ∅ (table !! "oid"))
                               (dict_of_keys
                                  (dotted_string <$> get_values_for_RegisteredID san)
                                  relation_id))
  ∧ ∀ kind, kind ≠ "dns" → kind ≠ "ip" → kind ≠ "oid" → m !! kind = table !! kind.
Proof.
  unfold updated_mapping. simpl. repeat split.
  - by rewrite !lookup_insert_ne, lookup_insert_eq by done.
  - rewrite lookup_insert_ne, lookup_insert_eq by done.
    by rewrite lookup_insert_ne by done.
  - rewrite lookup_insert_eq. by rewrite !lookup_insert_ne by done.
  - intros kind ? ? ?. by rewrite !lookup_insert_ne by done.
Qed.

(** After the update an identifier of the SAN belongs to the relation
    that asked; every other identifier keeps the owner it had. *)
Lemma owner_updated_mapping table san relation_id kind value :
  owner (updated_mapping table san relation_id) kind value
  = if decide ((kind, value) ∈ san_identifiers san) then Some relation_id
    else owner table kind value.
Proof.
  destruct (updated_mapping_lookup table san relation_id) as (Hd & Hi & Ho & Hother).
  unfold owner.
  assert (∀ k, default ∅ (table !! k) !! value = table !! k ≫= λ t, t !! value) as Hdef.
  { intros k. destruct (table !! k); simpl; [done|]. apply lookup_empty. }
  destruct (decide (kind = "dns")) as [->|Hnd];
    [|destruct (decide (kind = "ip")) as [->|Hni];
      [|destruct (decide (kind = "oid")) as [->|Hno]]].
  - rewrite Hd. simpl. rewrite dict_or_lookup, dict_of_keys_lookup, Hdef.
    destruct (decide (value ∈ _)) as [Hin|Hin].
    + rewrite decide_True; [done|]. apply elem_of_san_identifiers. eauto.
    + rewrite decide_False; [done|]. rewrite elem_of_san_identifiers.
      intros [[_ ?]|[[? _]|[? _]]]; done.
  - rewrite Hi. simpl. rewrite dict_or_lookup, dict_of_keys_lookup, Hdef.
    destruct (decide (value ∈ _)) as [Hin|Hin].
    + rewrite decide_True; [done|]. apply elem_of_san_identifiers. eauto.
    + rewrite decide_False; [done|]. rewrite elem_of_san_identifiers.
      intros [[? _]|[[_ ?]|[? _]]]; done.
  - rewrite Ho. simpl. rewrite dict_or_lookup, dict_of_keys_lookup, Hdef.
    destruct (decide (value ∈ _)) as [Hin|Hin].
    + rewrite decide_True; [done|]. apply elem_of_san_identifiers. eauto.
    + rewrite decide_False; [done|]. rewrite elem_of_san_identifiers.
      intros [[? _]|[[? _]|[_ ?]]]; done.
  - rewrite Hother by done. rewrite decide_False; [done|].
    rewrite elem_of_san_identifiers. intros [[? _]|[[? _]|[? _]]]; done.
Qed.

(** Storing the same claim twice is storing it once. *)
Lemma updated_mapping_idempotent table san relation_id :
  updated_mapping (updated_mapping table san relation_id) san relation_id
  = updated_mapping table san relation_id.
Proof.
  destruct (updated_mapping_lookup table san relation_id) as (Hd & Hi & Ho & _).
  set (m := updated_mapping table san relation_id) in *.
  unfold updated_mapping at 1. simpl.
  rewrite Hd. simpl. rewrite dict_or_absorb. rewrite (insert_id m "dns") by done.
  rewrite Hi. simpl. rewrite dict_or_absorb. rewrite (insert_id m "ip") by done.
  rewrite Ho. simpl. rewrite dict_or_absorb. by rewrite (insert_id m "oid").
Qed.

(** ** The admission controller *)

Lemma callbacks_of_app l1 l2 :
  callbacks_of (l1 ++ l2) = callbacks_of l1 ++ callbacks_of l2.
Proof. unfold callbacks_of. apply omap_app. Qed.

Lemma LimitToOneRequest_well_behaved : well_behaved LimitToOneRequest.
Proof.
  split; cbn [evaluate callback LimitToOneRequest].
  - intros. unfold only_logged, LimitToOneRequest_evaluate. run. cases; done.
  - intros. by rewrite !LimitToOneRequest_evaluate_result.
  - done.
  - done.
Qed.

Lemma LimitToFirstRequester_well_behaved load_pem_x509_csr relation :
  well_behaved (LimitToFirstRequester load_pem_x509_csr relation).
Proof.
  split; cbn [evaluate callback LimitToFirstRequester].
  - intros. apply LimitToFirstRequester_evaluate_frame.
  - intros. by apply LimitToFirstRequester_evaluate_reads.
  - intros csr relation_id requirer_csrs w w' H.
    apply LimitToFirstRequester_accepts_parsed in H as (? & ? & ? & _ & ? & ?).
    apply LimitToFirstRequester_callback_returns. eauto.
  - intros csr relation_id w.
    pose proof (LimitToFirstRequester_callback_frame
                  load_pem_x509_csr relation csr relation_id w) as H.
    simpl in H. tauto.
Qed.

(** The reference [get_relation] hands out for the peer relation. *)
Lemma get_relation_run name w :
  get_relation name w = (Return (relation_reference name w), w).
Proof. reflexivity. Qed.

Lemma active_filters_eq load_pem_x509_csr w :
  active_filters load_pem_x509_csr w
  = (if enabled "limit-to-one-request" w then [LimitToOneRequest] else [])
    ++ (if enabled "limit-to-first-requester" w
        then [LimitToFirstRequester load_pem_x509_csr
                (relation_reference PEER_RELATION_NAME w)]
        else []).
Proof.
  unfold active_filters, result, _get_csr_filters, config_enabled, get_relation.
  run.
  destruct (enabled "limit-to-one-request" w),
    (enabled "limit-to-first-requester" w); reflexivity.
Qed.

Lemma _get_csr_filters_run load_pem_x509_csr w :
  _get_csr_filters load_pem_x509_csr w
  = (Return (active_filters load_pem_x509_csr w), w).
Proof.
  rewrite active_filters_eq.
  unfold _get_csr_filters, config_enabled, get_relation. run.
  destruct (enabled "limit-to-one-request" w),
    (enabled "limit-to-first-requester" w); reflexivity.
Qed.

Lemma active_filters_well_behaved load_pem_x509_csr w :
  Forall well_behaved (active_filters load_pem_x509_csr w).
Proof.
  rewrite active_filters_eq.
  destruct (enabled "limit-to-one-request" w),
    (enabled "limit-to-first-requester" w); simpl;
    repeat (apply List.Forall_cons;
            [first [apply LimitToOneRequest_well_behaved
                   |apply LimitToFirstRequester_well_behaved]|]);
    apply List.Forall_nil.
Qed.

(** The chain depends on the configuration and on the presence of the
    peer relation only. *)
Lemma active_filters_reads load_pem_x509_csr w w' :
  config w' = config w → relations w' = relations w →
  active_filters load_pem_x509_csr w' = active_filters load_pem_x509_csr w.
Proof.
  intros Hc Hr. rewrite !active_filters_eq.
  unfold enabled, relation_reference. by rewrite Hc, Hr.
Qed.

Section Controller.

Variables (csr : bytes) (relation_id : Z) (all_requirers_csrs : list RequirerCSR.t).

Lemma all_evaluate_cons f filters w :
  all_evaluate (f :: filters) csr relation_id all_requirers_csrs w
  = match evaluate f csr relation_id all_requirers_csrs
            (add_invocation (class_name f, Evaluate) w) with
    | (Return true, w1) =>
        all_evaluate filters csr relation_id all_requirers_csrs w1
    | (Return false, w1) => (Return false, w1)
    | (Raise e, w1) => (Raise e, w1)
    end.
Proof.
  cbn [all_evaluate]. unfold call_evaluate, bind, modify.
  destruct (evaluate f _ _ _ _) as [[[]|e] w1]; reflexivity.
Qed.

(** The generator of [all(...)]: it writes log records and the ghost
    trace only, no callback among them, and it yields [True] exactly
    when every filter accepts. *)
Lemma all_evaluate_spec filters :
  Forall well_behaved filters →
  ∀ w, ∃ l,
    let w' := world_after (all_evaluate filters csr relation_id all_requirers_csrs) w in
    config w' = config w ∧ relations w' = relations w
    ∧ requirer_csrs w' = requirer_csrs w ∧ calls w' = calls w
    ∧ invocations w' = invocations w ++ l ∧ callbacks_of l = []
    ∧ (result (all_evaluate filters csr relation_id all_requirers_csrs) w = Return true
       ↔ ∀ f, f ∈ filters →
           result (evaluate f csr relation_id all_requirers_csrs) w = Return true).
Proof.
  induction 1 as [|f filters Hf Hfs IH]; intros w.
  - exists []. simpl. rewrite app_nil_r. repeat split; try done.
    intros _ g Hin. by apply elem_of_nil in Hin.
  - set (w0 := add_invocation (class_name f, Evaluate) w).
    pose proof (wb_evaluate_frame f Hf csr relation_id all_requirers_csrs w0)
      as (Hc & Hr & Hq & _ & Hk & Hi).
    pose proof (wb_evaluate_reads f Hf csr relation_id all_requirers_csrs w w0 eq_refl)
      as Hsame.
    assert (∀ g w1, g ∈ filters → relations w1 = relations w →
              (evaluate g csr relation_id all_requirers_csrs w1).1
              = (evaluate g csr relation_id all_requirers_csrs w).1) as Hreads.
    { intros g w1 Hin Hrel. rewrite Forall_forall in Hfs.
      apply (wb_evaluate_reads g (Hfs g Hin)). exact Hrel. }
    unfold result, world_after in *. rewrite all_evaluate_cons. fold w0.
    destruct (evaluate f csr relation_id all_requirers_csrs w0) as [[[]|e] w1] eqn:Hev;
      simpl in *.
    + destruct (IH w1) as (l & Hc' & Hr' & Hq' & Hk' & Hi' & Hcb & Hiff).
      exists ((class_name f, Evaluate) :: l). simpl in *.
      rewrite Hc', Hr', Hq', Hk', Hi', Hc, Hr, Hq, Hk, Hi. simpl.
      rewrite <- app_assoc. repeat split; try done.
      * intros Hall g Hin. apply elem_of_cons in Hin as [->|Hin]; [done|].
        rewrite <- (Hreads g w1 Hin Hr). by apply Hiff.
      * intros Hall. apply Hiff. intros g Hin.
        rewrite (Hreads g w1 Hin Hr).
        apply Hall. by apply list_elem_of_further.
    + exists [(class_name f, Evaluate)]. simpl.
      rewrite Hc, Hr, Hq, Hk, Hi. repeat split; try done.
      intros Hall. specialize (Hall f (list_elem_of_here _ _)). congruence.
    + exists [(class_name f, Evaluate)]. simpl.
      rewrite Hc, Hr, Hq, Hk, Hi. repeat split; try done.
      intros Hall. specialize (Hall f (list_elem_of_here _ _)). congruence.
Qed.

End Controller.

Section Callbacks.

Variables (csr : bytes) (relation_id : Z).

Lemma each_callback_cons f filters w :
  each_callback (f :: filters) csr relation_id w
  = match callback f csr relation_id (add_invocation (class_name f, Callback) w) with
    | (Return _, w1) => each_callback filters csr relation_id w1
    | (Raise e, w1) => (Raise e, w1)
    end.
Proof.
  cbn [each_callback]. unfold call_callback, bind, modify.
  destruct (callback f _ _ _) as [[[]|e] w1]; reflexivity.
Qed.

(** The comprehension over [filters]: when no callback raises, each
    filter's callback is called once, in the order of the chain. *)
Lemma each_callback_spec filters :
  Forall well_behaved filters →
  (∀ f w', f ∈ filters → result (callback f csr relation_id) w' = Return tt) →
  ∀ w,
    let w' := world_after (each_callback filters csr relation_id) w in
    result (each_callback filters csr relation_id) w = Return tt
    ∧ calls w' = calls w
    ∧ config w' = config w
    ∧ requirer_csrs w' = requirer_csrs w
    ∧ invocations w'
      = invocations w ++ ((λ f, (class_name f, Callback)) <$> filters).
Proof.
  induction 1 as [|f filters Hf Hfs IH]; intros Hret w.
  - simpl. by rewrite app_nil_r.
  - pose proof (Hret f (add_invocation (class_name f, Callback) w)
                  (list_elem_of_here _ _)) as Hf_ret.
    pose proof (wb_callback_frame f Hf csr relation_id
                  (add_invocation (class_name f, Callback) w)) as (Hi & Hk & Hc & Hq).
    unfold result, world_after in *. rewrite each_callback_cons.
    destruct (callback f csr relation_id _) as [[[]|e] w1]; simpl in *; [|done].
    destruct (IH (λ g w' Hin, Hret g w' (list_elem_of_further _ _ _ Hin)) w1)
      as (Hr' & Hk' & Hc' & Hq' & Hi').
    rewrite Hr', Hk', Hc', Hq', Hi', Hk, Hc, Hq, Hi. rewrite <- app_assoc. done.
Qed.

End Callbacks.

Lemma callbacks_of_callbacks (filters : list CsrFilter) :
  callbacks_of ((λ f, (class_name f, Callback)) <$> filters) = class_name <$> filters.
Proof.
  unfold callbacks_of. induction filters as [|f filters IH]; [done|].
  simpl in *. by f_equal.
Qed.

Lemma _is_certificate_allowed_unfold load_pem_x509_csr csr relation_id w :
  _is_certificate_allowed load_pem_x509_csr csr relation_id w
  = let filters := active_filters load_pem_x509_csr w in
    match all_evaluate filters csr relation_id (requirer_csrs w) w with
    | (Return true, w1) =>
        match each_callback filters csr relation_id w1 with
        | (Return _, w2) => (Return true, w2)
        | (Raise e, w2) => (Raise e, w2)
        end
    | (Return false, w1) => (Return false, w1)
    | (Raise e, w1) => (Raise e, w1)
    end.
Proof.
  unfold _is_certificate_allowed. unfold bind at 1.
  rewrite _get_csr_filters_run. unfold bind at 1. unfold get_requirer_csrs, gets.
  unfold bind at 1.
  destruct (all_evaluate _ _ _ _ _) as [[[]|e] w1]; reflexivity.
Qed.

(** What the controller does, in one statement: the result is [True]
    exactly when every filter of the chain accepts; then the callbacks of
    the chain have been called, once each and in order; otherwise no
    callback has been called and the relations are as they were. *)
Lemma _is_certificate_allowed_spec load_pem_x509_csr csr relation_id w :
  let filters := active_filters load_pem_x509_csr w in
  let m := _is_certificate_allowed load_pem_x509_csr csr relation_id in
  (result m w = Return true ↔ all_accept filters csr relation_id w)
  ∧ calls (world_after m w) = calls w
  ∧ config (world_after m w) = config w
  ∧ requirer_csrs (world_after m w) = requirer_csrs w
  ∧ (result m w = Return true →
     callbacks_of (invoked m w) = class_name <$> filters)
  ∧ (result m w ≠ Return true →
     callbacks_of (invoked m w) = [] ∧ relations (world_after m w) = relations w)
  ∧ (∀ e, result m w = Raise e
          ↔ result (all_evaluate filters csr relation_id (requirer_csrs w)) w
            = Raise e).
Proof.
  intros filters m. subst m.
  pose proof (active_filters_well_behaved load_pem_x509_csr w) as Hwb.
  fold filters in Hwb.
  destruct (all_evaluate_spec csr relation_id (requirer_csrs w) filters Hwb w)
    as (l & Hc & Hr & Hq & Hk & Hi & Hcb & Hiff).
  unfold all_accept, invoked, result, world_after in *.
  rewrite _is_certificate_allowed_unfold. cbv zeta. fold filters.
  destruct (all_evaluate filters csr relation_id (requirer_csrs w) w)
    as [[[]|e] w1] eqn:Hall; simpl in *.
  - assert (∀ f w', f ∈ filters →
              result (callback f csr relation_id) w' = Return tt) as Hret.
    { intros f w' Hin. rewrite Forall_forall in Hwb.
      eapply (wb_callback_returns f (Hwb f Hin)). by apply Hiff. }
    destruct (each_callback_spec csr relation_id filters Hwb Hret w1)
      as (Hres & Hk2 & Hc2 & Hq2 & Hi2).
    unfold result, world_after in *.
    destruct (each_callback filters csr relation_id w1) as [[[]|e] w2];
      simpl in *; [|done].
    rewrite Hk2, Hc2, Hq2, Hi2, Hi, Hk, Hc, Hq, <- app_assoc, drop_app_length,
      callbacks_of_app, Hcb, callbacks_of_callbacks. simpl.
    repeat split; try done.
    by apply Hiff.
  - rewrite Hi, drop_app_length, Hcb, Hk, Hc, Hq, Hr.
    repeat split; try done. intros H. apply Hiff in H. done.
  - rewrite Hi, drop_app_length, Hcb, Hk, Hc, Hq, Hr.
    repeat split; try done. intros H. apply Hiff in H. done.
Qed.

(** The controller raises exactly when [LimitToFirstRequester] is reached
    with the peer relation at hand and cannot read the CSR. *)
Lemma _is_certificate_allowed_raises load_pem_x509_csr csr relation_id w e :
  result (_is_certificate_allowed load_pem_x509_csr csr relation_id) w = Raise e
  ↔ enabled "limit-to-first-requester" w = true
    ∧ is_Some (relations w !! PEER_RELATION_NAME)
    ∧ (enabled "limit-to-one-request" w = true →
       (length (relevant_csrs relation_id (requirer_csrs w)) ≤ 1)%nat)
    ∧ unreadable load_pem_x509_csr csr e.
Proof.
  destruct (_is_certificate_allowed_spec load_pem_x509_csr csr relation_id w)
    as (_ & _ & _ & _ & _ & _ & ->).
  rewrite active_filters_eq. unfold relation_reference, unreadable, result.
  destruct (enabled "limit-to-one-request" w) eqn:Hone,
    (enabled "limit-to-first-requester" w) eqn:Hfirst; simpl app.
  - rewrite all_evaluate_cons. cbn [evaluate class_name LimitToOneRequest].
    pose proof (LimitToOneRequest_evaluate_result csr relation_id (requirer_csrs w)
                  (add_invocation ("LimitToOneRequest", Evaluate) w)) as Hres.
    unfold result in Hres.
    destruct (LimitToOneRequest_evaluate _ _ _ _) as [[[]|e'] w1];
      simpl in Hres; simplify_eq.
    + symmetry in Hres. apply bool_decide_eq_true in Hres.
      rewrite all_evaluate_cons.
      cbn [evaluate class_name LimitToFirstRequester all_evaluate].
      destruct (relations w !! PEER_RELATION_NAME) as [r|] eqn:Hpeer.
      * pose proof (LimitToFirstRequester_evaluate_raises load_pem_x509_csr
                      PEER_RELATION_NAME csr relation_id (requirer_csrs w)
                      (add_invocation ("LimitToFirstRequester", Evaluate) w1) e)
          as Hraise.
        unfold result in Hraise.
        destruct (LimitToFirstRequester_evaluate _ _ _ _ _ _) as [[[]|e'] w2];
          simpl in *.
        -- split; [done|]. intros (_ & _ & _ & H). by apply Hraise in H.
        -- split; [done|]. intros (_ & _ & _ & H). by apply Hraise in H.
        -- rewrite Hraise. split; [|tauto]. intros H. by eauto.
      * simpl. split; [done|]. by intros (_ & [? ?] & _).
    + symmetry in Hres. apply bool_decide_eq_false in Hres. simpl.
      split; [done|]. intros (_ & _ & H & _). specialize (H eq_refl). lia.
  - rewrite all_evaluate_cons. cbn [evaluate class_name LimitToOneRequest].
    pose proof (LimitToOneRequest_evaluate_result csr relation_id (requirer_csrs w)
                  (add_invocation ("LimitToOneRequest", Evaluate) w)) as Hres.
    unfold result in Hres.
    destruct (LimitToOneRequest_evaluate _ _ _ _) as [[[]|e'] w1];
      simpl in *; simplify_eq; split; try done; by intros (? & _).
  - rewrite all_evaluate_cons.
    cbn [evaluate class_name LimitToFirstRequester all_evaluate].
    destruct (relations w !! PEER_RELATION_NAME) as [r|] eqn:Hpeer.
    + pose proof (LimitToFirstRequester_evaluate_raises load_pem_x509_csr
                    PEER_RELATION_NAME csr relation_id (requirer_csrs w)
                    (add_invocation ("LimitToFirstRequester", Evaluate) w) e)
        as Hraise.
      unfold result in Hraise.
      destruct (LimitToFirstRequester_evaluate _ _ _ _ _ _) as [[[]|e'] w2];
        simpl in *.
      * split; [done|]. intros (_ & _ & _ & H). by apply Hraise in H.
      * split; [done|]. intros (_ & _ & _ & H). by apply Hraise in H.
      * rewrite Hraise. split; [|tauto]. intros H. by eauto.
    + simpl. split; [done|]. by intros (_ & [? ?] & _).
  - simpl. split; [done|]. by intros (? & _).
Qed.



(** The chain of the fixture with both filters switched on. *)
Example both_filters_chain :
  class_name <$> active_filters Fixture.load_pem_x509_csr
                   (Fixture.world Fixture.both_filters Fixture.related [])
  = ["LimitToOneRequest"; "LimitToFirstRequester"].
Proof. vm_compute. reflexivity. Qed.

(** ** The creation request handler *)

Lemma _on_certificate_creation_request_unfold load_pem_x509_csr event w :
  _on_certificate_creation_request load_pem_x509_csr event w
  = let s := CertificateCreationRequestEvent.certificate_signing_request event in
    let csr := utf8 s in
    match relations w !! RELATION_NAME_TO_TLS_PROVIDER with
    | None =>
        (Return tt,
         set_unit_status
           (BlockedStatus "Need a relation to a TLS certificates provider")
           (add_call defer w))
    | Some _ =>
        if has_surrogate s then (Raise UnicodeEncodeError, w)
        else
          match _is_certificate_allowed load_pem_x509_csr csr
                  (CertificateCreationRequestEvent.relation_id event) w with
          | (Return true, w1) =>
              (Return tt,
               add_call (request_certificate_creation
                           csr (CertificateCreationRequestEvent.is_ca event)) w1)
          | (Return false, w1) => (Return tt, add_log (denied_record event) w1)
          | (Raise e, w1) => (Raise e, w1)
          end
    end.
Proof.
  unfold _on_certificate_creation_request. unfold bind at 1.
  rewrite get_relation_run. unfold relation_reference.
  destruct (relations w !! RELATION_NAME_TO_TLS_PROVIDER); [|reflexivity].
  cbv zeta. unfold bind at 1. unfold encode.
  destruct (has_surrogate _); [reflexivity|].
  unfold ret at 1. unfold bind at 1.
  destruct (_is_certificate_allowed _ _ _ _) as [[[]|e] w1]; reflexivity.
Qed.

(** C3, as the code has it.  With the provider relation present the
    creation request handler raises [UnicodeEncodeError] when the CSR
    string of the event holds a surrogate, and [ValueError] when
    [LimitToFirstRequester] is reached (switched on, peer relation present,
    no earlier filter has denied) on bytes that do not parse.  It returns
    whenever the CSR string encodes and either [LimitToFirstRequester] is
    not reached or the CSR parses and carries the Subject Alternative Name
    extension.  When it raises it has made no outbound call and has left
    the relations unchanged.  A request is forwarded upstream only when
    every filter of the chain accepted its bytes, and a request that some
    filter did not accept, when the handler returns, is answered by a
    warning record and by no call. *)
Theorem C3_unreadable_csr_raises
    (load_pem_x509_csr : bytes → option CertificateSigningRequest)
    (event : CertificateCreationRequestEvent.t) (w : World) :
  let s := CertificateCreationRequestEvent.certificate_signing_request event in
  let csr := utf8 s in
  let relation_id := CertificateCreationRequestEvent.relation_id event in
  let handler := _on_certificate_creation_request load_pem_x509_csr event in
  let accepted := all_accept (active_filters load_pem_x509_csr w) csr relation_id w in
  let provider := is_Some (relations w !! RELATION_NAME_TO_TLS_PROVIDER) in
  let reached :=
    enabled "limit-to-first-requester" w = true
    ∧ is_Some (relations w !! PEER_RELATION_NAME)
    ∧ (enabled "limit-to-one-request" w = true →
       (length (relevant_csrs relation_id (requirer_csrs w)) ≤ 1)%nat) in
  (provider → has_surrogate s = true → result handler w = Raise UnicodeEncodeError)
  ∧ (provider → has_surrogate s = false → reached →
     load_pem_x509_csr csr = None → result handler w = Raise ValueError)
  ∧ (¬ provider → result handler w = Return tt)
  ∧ (has_surrogate s = false → ¬ reached → result handler w = Return tt)
  ∧ (has_surrogate s = false →
     (∃ csr_object san,
        load_pem_x509_csr csr = Some csr_object
        ∧ subject_alternative_name csr_object = Some san) →
     result handler w = Return tt)
  ∧ (∀ e, result handler w = Raise e →
          called handler w = [] ∧ relations (world_after handler w) = relations w)
  ∧ (∀ c is_ca, request_certificate_creation c is_ca ∈ called handler w →
                c = csr ∧ has_surrogate s = false ∧ accepted)
  ∧ (result handler w = Return tt → provider → ¬ accepted →
     called handler w = []
     ∧ relations (world_after handler w) = relations w
     ∧ last (log (world_after handler w)) = Some (denied_record event)).
Proof.
  intros s csr relation_id handler accepted provider reached.
  subst handler accepted provider reached.
  pose proof (_is_certificate_allowed_raises load_pem_x509_csr csr relation_id w)
    as Hraise.
  destruct (_is_certificate_allowed_spec load_pem_x509_csr csr relation_id w)
    as (Hiff & Hk & _ & _ & _ & Hdenied & _).
  unfold called, result, world_after in *.
  rewrite _on_certificate_creation_request_unfold. cbv zeta.
  fold s csr relation_id.
  destruct (relations w !! RELATION_NAME_TO_TLS_PROVIDER) as [p|].
  - destruct (has_surrogate s) eqn:Hs.
    { simpl. rewrite drop_all.
      split; [done|]. split; [done|]. split; [by intros []; exists p|].
      split; [done|]. split; [done|]. split; [done|]. split; [|done].
      intros c is_ca H. by apply elem_of_nil in H. }
    assert (∀ e, (_is_certificate_allowed load_pem_x509_csr csr relation_id w).1
                 = Raise e →
                 (enabled "limit-to-first-requester" w = true
                  ∧ is_Some (relations w !! PEER_RELATION_NAME)
                  ∧ (enabled "limit-to-one-request" w = true →
                     (length (relevant_csrs relation_id (requirer_csrs w)) ≤ 1)%nat))
                 ∧ unreadable load_pem_x509_csr csr e) as Hwhy.
    { intros e He. apply Hraise in He. tauto. }
    destruct (_is_certificate_allowed load_pem_x509_csr csr relation_id w)
      as [[[]|e'] w1]; simpl in *.
    + rewrite Hk, drop_app_length.
      split; [done|]. split.
      { intros _ _ (H1 & H2 & H3) Hnone.
        assert (@Return bool true = Raise ValueError) as Habs; [|done].
        apply Hraise. split; [done|]. split; [done|]. split; [done|]. by left. }
      split; [done|]. split; [done|]. split; [done|]. split; [done|]. split.
      * intros c is_ca H. apply list_elem_of_singleton in H. injection H as -> _.
        split; [done|]. split; [done|]. by apply Hiff.
      * intros _ _ H. destruct H. by apply Hiff.
    + rewrite Hk, drop_all. destruct (Hdenied ltac:(done)) as [_ Hr].
      split; [done|]. split.
      { intros _ _ (H1 & H2 & H3) Hnone.
        assert (@Return bool false = Raise ValueError) as Habs; [|done].
        apply Hraise. split; [done|]. split; [done|]. split; [done|]. by left. }
      split; [done|]. split; [done|]. split; [done|]. split; [done|]. split.
      * intros c is_ca H. by apply elem_of_nil in H.
      * intros _ _ _. split; [done|]. split; [done|]. apply last_snoc.
    + rewrite Hk, drop_all. destruct (Hdenied ltac:(done)) as [_ Hr].
      destruct (Hwhy e' eq_refl) as [Hreached Hunreadable].
      split; [done|]. split.
      { intros _ _ Hreach Hnone. f_equal.
        destruct Hunreadable as [[_ ->]|(c & Hc & _)]; [done|congruence]. }
      split; [by intros []; exists p|]. split; [by intros _ []|]. split.
      { intros _ (c & san & Hc & Hsan).
        destruct Hunreadable as [[? _]|(c' & Hc' & Hsan' & _)]; congruence. }
      split; [done|]. split; [|done].
      intros c is_ca H. by apply elem_of_nil in H.
  - simpl. rewrite drop_app_length.
    split; [by intros [? ?]|]. split; [by intros [? ?]|].
    split; [done|]. split; [done|]. split; [done|]. split; [done|]. split.
    + intros c is_ca H. apply elem_of_cons in H as [?|H]; [done|].
      by apply elem_of_nil in H.
    + by intros _ [? ?].
Qed.

Lemma C3_unreadable_csr_raises_witness :
  let w := Fixture.world Fixture.both_filters Fixture.related [] in
  let handler :=
    _on_certificate_creation_request Fixture.load_pem_x509_csr
      (CertificateCreationRequestEvent.mk Fixture.not_a_csr 1 false) in
  result handler w = Raise ValueError
  ∧ called handler w = []
  ∧ relations (world_after handler w) = relations w.
Proof.
  intros w handler.
  destruct (C3_unreadable_csr_raises Fixture.load_pem_x509_csr
              (CertificateCreationRequestEvent.mk Fixture.not_a_csr 1 false) w)
    as (_ & Hraise & _ & _ & _ & Hnothing & _).
  assert (result handler w = Raise ValueError) as H.
  { apply Hraise.
    - by eexists.
    - reflexivity.
    - split; [reflexivity|]. split; [by eexists|]. intros _. simpl. lia.
    - reflexivity. }
  split; [exact H|]. exact (Hnothing ValueError H).
Defined.

(** C3, as the specification words it, fails.  With [LimitToFirstRequester]
    switched on and the peer relation present, bytes that are not a CSR
    make the handler raise [ValueError]; a CSR string that holds a
    surrogate makes it raise [UnicodeEncodeError] whatever the filters;
    and with no filter switched on, bytes that are not a CSR, which
    nothing has validated, are forwarded upstream. *)
Lemma C3_exception_escapes :
  result (_on_certificate_creation_request Fixture.load_pem_x509_csr
            (CertificateCreationRequestEvent.mk Fixture.not_a_csr 1 false))
         (Fixture.world Fixture.only_first Fixture.related [])
  = Raise ValueError
  ∧ result (_on_certificate_creation_request Fixture.load_pem_x509_csr
              (CertificateCreationRequestEvent.mk Fixture.lone_surrogate 1 false))
           (Fixture.world ∅ Fixture.related [])
    = Raise UnicodeEncodeError
  ∧ called (_on_certificate_creation_request Fixture.load_pem_x509_csr
              (CertificateCreationRequestEvent.mk Fixture.not_a_csr 1 false))
           (Fixture.world ∅ Fixture.related [])
    = [request_certificate_creation (utf8 Fixture.not_a_csr) false].
Proof. split; [|split]; vm_compute; reflexivity. Qed.

(** ** The relation resolver *)

Lemma elem_of_matching_relation_ids csr w t :
  t ∈ matching_relation_ids csr w ↔ requested_by csr w t.
Proof.
  unfold matching_relation_ids, requested_by.
  rewrite elem_of_list_to_set, list_elem_of_fmap. split.
  - intros (r & -> & Hin). apply list_elem_of_filter in Hin as [? ?]. eauto.
  - intros (r & Hin & Hcsr & <-). exists r. split; [done|].
    by apply list_elem_of_filter.
Qed.

Lemma _get_relation_id_for_csr_unfold csr w :
  _get_relation_id_for_csr csr w
  = let relation_ids := matching_relation_ids csr w in
    if decide (size relation_ids = 0%nat) then (Return None, w)
    else if decide (1 < size relation_ids)%nat then
      (Return None,
       add_log {| levelname := ERROR;
                  msg := "Multiple requirers have the same CSR. Cannot choose one between relation IDs: %s";
                  args := [ArgIds relation_ids] |} w)
    else match elements relation_ids with
         | x :: _ => (Return (Some x), w)
         | [] => (Raise KeyError, w)
         end.
Proof.
  unfold _get_relation_id_for_csr, get_requirer_csrs, set_pop. run.
  fold (matching_relation_ids csr w).
  destruct (decide (size (matching_relation_ids csr w) = 0%nat)); [done|].
  destruct (decide (1 < size (matching_relation_ids csr w))%nat); [done|].
  by destruct (elements (matching_relation_ids csr w)).
Qed.

Lemma resolve_unique csr w t :
  requested_by csr w t → (∀ t', requested_by csr w t' → t' = t) →
  _get_relation_id_for_csr csr w = (Return (Some t), w).
Proof.
  intros Ht Huniq.
  assert (matching_relation_ids csr w = {[t]}) as Hids.
  { apply set_eq. intros x. rewrite elem_of_matching_relation_ids, elem_of_singleton.
    split; [by apply Huniq|]. by intros ->. }
  rewrite _get_relation_id_for_csr_unfold. cbv zeta. rewrite Hids.
  rewrite size_singleton, elements_singleton.
  destruct (decide (1 = 0)%nat); [lia|]. destruct (decide (1 < 1)%nat); [lia|done].
Qed.

Lemma resolve_not_found csr w :
  (∀ t, ¬ requested_by csr w t) →
  _get_relation_id_for_csr csr w = (Return None, w).
Proof.
  intros Hnone.
  assert (matching_relation_ids csr w = ∅) as Hids.
  { apply set_eq. intros x. rewrite elem_of_matching_relation_ids, elem_of_empty.
    split; [apply Hnone|done]. }
  rewrite _get_relation_id_for_csr_unfold. cbv zeta. rewrite Hids, size_empty.
  by destruct (decide (0 = 0)%nat).
Qed.

Lemma resolve_ambiguous csr w t t' :
  requested_by csr w t → requested_by csr w t' → t ≠ t' →
  _get_relation_id_for_csr csr w
  = (Return None,
     add_log {| levelname := ERROR;
                msg := "Multiple requirers have the same CSR. Cannot choose one between relation IDs: %s";
                args := [ArgIds (matching_relation_ids csr w)] |} w).
Proof.
  intros Ht Ht' Hne.
  apply elem_of_matching_relation_ids in Ht, Ht'.
  assert (2 ≤ size (matching_relation_ids csr w))%nat as Hsize.
  { transitivity (size ({[t]} ∪ {[t']} : gset Z)).
    - rewrite size_union, !size_singleton; [done|].
      apply disjoint_singleton_l. by apply not_elem_of_singleton.
    - apply subseteq_size, union_subseteq.
      split; by apply singleton_subseteq_l. }
  rewrite _get_relation_id_for_csr_unfold. cbv zeta.
  destruct (decide (size _ = 0%nat)); [lia|].
  destruct (decide (1 < size _)%nat); [done|lia].
Qed.

Lemma _on_certificate_available_unfold event w :
  _on_certificate_available event w
  = match _get_relation_id_for_csr
            (CertificateAvailableEvent.certificate_signing_request event) w with
    | (Return relation_id, w1) =>
        if truthy relation_id then
          (Return tt,
           match relation_id with
           | Some relation_id =>
               add_call (set_relation_certificate
                           (CertificateAvailableEvent.certificate event)
                           (CertificateAvailableEvent.certificate_signing_request event)
                           (CertificateAvailableEvent.ca event)
                           (CertificateAvailableEvent.chain event)
                           relation_id) w1
           | None => w1
           end)
        else (Return tt, add_log (not_found_record event) w1)
    | (Raise e, w1) => (Raise e, w1)
    end.
Proof.
  unfold _on_certificate_available, bind.
  destruct (_get_relation_id_for_csr _ w) as [[[n|]|e] w1]; simpl; try done.
  by destruct (negb (n =? 0)%Z).
Qed.

(** C7. [_get_relation_id_for_csr] compares the CSR of each outstanding
    request with the given one by equality of their characters.  When the
    matching requests all belong to one relation it returns that relation's
    id; when none matches it returns [None] and logs nothing (not found);
    when requests of two different relations match it returns [None] and
    logs an error (ambiguous).  In the last two cases
    [_on_certificate_available] logs that the relation could not be found
    and makes no call: the certificate is not handed to any relation. *)
Theorem C7_relation_resolver (event : CertificateAvailableEvent.t) (w : World) :
  let csr := CertificateAvailableEvent.certificate_signing_request event in
  let resolve := _get_relation_id_for_csr csr in
  let handler := _on_certificate_available event in
  let dropped :=
    result handler w = Return tt ∧ called handler w = []
    ∧ last (log (world_after handler w)) = Some (not_found_record event) in
  (∀ t, requested_by csr w t → (∀ t', requested_by csr w t' → t' = t) →
        result resolve w = Return (Some t) ∧ logged resolve w = [])
  ∧ ((∀ t, ¬ requested_by csr w t) →
     result resolve w = Return None ∧ logged resolve w = [] ∧ dropped)
  ∧ (∀ t t', requested_by csr w t → requested_by csr w t' → t ≠ t' →
       result resolve w = Return None
       ∧ (∃ record, levelname record = ERROR ∧ logged resolve w = [record])
       ∧ dropped).
Proof.
  intros csr resolve handler dropped. subst resolve handler dropped.
  unfold logged, called, result, world_after.
  rewrite _on_certificate_available_unfold. fold csr.
  split; [|split].
  - intros t Ht Huniq. rewrite (resolve_unique csr w t Ht Huniq). simpl.
    by rewrite drop_all.
  - intros Hnone. rewrite (resolve_not_found csr w Hnone). simpl.
    rewrite !drop_all, last_snoc. done.
  - intros t t' Ht Ht' Hne. rewrite (resolve_ambiguous csr w t t' Ht Ht' Hne).
    simpl. rewrite drop_all, drop_app_length, last_snoc.
    split; [done|]. split; [|done].
    eexists. split; [|reflexivity]. reflexivity.
Qed.

Lemma C7_relation_resolver_witness :
  let T1 := 1 in
  let T2 := 2 in
  let event := CertificateAvailableEvent.mk "certificate" "csrX" "ca" [] in
  result (_get_relation_id_for_csr "csrX")
    (Fixture.world ∅ ∅ [RequirerCSR.mk T1 "csrX"]) = Return (Some T1)
  ∧ result (_get_relation_id_for_csr "csrX")
      (Fixture.world ∅ ∅ [RequirerCSR.mk T1 "csrX"; RequirerCSR.mk T2 "csrX"])
    = Return None.
Proof.
  intros T1 T2 event. split.
  - apply (C7_relation_resolver event (Fixture.world ∅ ∅ [RequirerCSR.mk T1 "csrX"])).
    + exists (RequirerCSR.mk T1 "csrX"). split; [apply list_elem_of_here|done].
    + intros t' (r & Hin & _ & <-). apply list_elem_of_singleton in Hin. by subst.
  - apply (C7_relation_resolver event
             (Fixture.world ∅ ∅ [RequirerCSR.mk T1 "csrX"; RequirerCSR.mk T2 "csrX"])
          ) with (t := T1) (t' := T2).
    + exists (RequirerCSR.mk T1 "csrX"). split; [apply list_elem_of_here|done].
    + exists (RequirerCSR.mk T2 "csrX").
      split; [apply list_elem_of_further, list_elem_of_here|done].
    + done.
Defined.

(** C10. When the CSR of an issued certificate resolves to the single
    relation whose id is 0, [_on_certificate_available] takes the branch
    of its guard [if not relation_id]: it logs that the relation could not
    be found and does not call [set_relation_certificate]. *)
Theorem C10_relation_id_zero_not_delivered
    (event : CertificateAvailableEvent.t) (w : World) :
  let csr := CertificateAvailableEvent.certificate_signing_request event in
  let handler := _on_certificate_available event in
  requested_by csr w 0 →
  (∀ t, requested_by csr w t → t = 0) →
  result (_get_relation_id_for_csr csr) w = Return (Some 0)
  ∧ result handler w = Return tt
  ∧ called handler w = []
  ∧ logged handler w = [not_found_record event].
Proof.
  intros csr handler H0 Huniq. subst handler.
  unfold result, logged, called, world_after.
  rewrite _on_certificate_available_unfold. fold csr.
  rewrite (resolve_unique csr w 0 H0 Huniq). simpl.
  by rewrite drop_all, drop_app_length.
Qed.

Lemma C10_relation_id_zero_not_delivered_witness :
  let event := CertificateAvailableEvent.mk "certificate" "csrX" "ca" [] in
  let w := Fixture.world ∅ ∅ [RequirerCSR.mk 0 "csrX"] in
  result (_get_relation_id_for_csr "csrX") w = Return (Some 0)
  ∧ called (_on_certificate_available event) w = [].
Proof.
  intros event w.
  destruct (C10_relation_id_zero_not_delivered event w) as (H1 & _ & H2 & _).
  - exists (RequirerCSR.mk 0 "csrX"). split; [apply list_elem_of_here|done].
  - intros t (r & Hin & _ & <-). apply list_elem_of_singleton in Hin. by subst.
  - split; [exact H1|exact H2].
Defined.

(** For contrast: a single matching relation with a non-zero id gets the
    certificate. *)
Lemma nonzero_relation_id_delivered (event : CertificateAvailableEvent.t) w t :
  let csr := CertificateAvailableEvent.certificate_signing_request event in
  requested_by csr w t → (∀ t', requested_by csr w t' → t' = t) → t ≠ 0 →
  called (_on_certificate_available event) w
  = [set_relation_certificate
       (CertificateAvailableEvent.certificate event) csr
       (CertificateAvailableEvent.ca event)
       (CertificateAvailableEvent.chain event) t].
Proof.
  intros csr Ht Huniq Hne. unfold called, world_after.
  rewrite _on_certificate_available_unfold. fold csr.
  rewrite (resolve_unique csr w t Ht Huniq). simpl.
  destruct (Z.eqb_spec t 0); [done|]. simpl. by rewrite drop_app_length.
Qed.

(** ** The Reservation Table over time *)

Lemma reservation_table_reads w w' :
  relations w' = relations w → reservation_table w' = reservation_table w.
Proof. intros H. unfold reservation_table. by rewrite H. Qed.

Lemma reservations_kept_refl w w' :
  relations w' = relations w → reservations_kept w w'.
Proof. intros H kind value t. by rewrite (reservation_table_reads w w' H). Qed.

Lemma reservations_added_for_refl relation_id w w' :
  relations w' = relations w → reservations_added_for relation_id w w'.
Proof. intros H kind value t. rewrite (reservation_table_reads w w' H). by left. Qed.

Section FirstRequesterTable.

Variable load_pem_x509_csr : bytes → option CertificateSigningRequest.

Lemma conflicts_after_update table relation_id subjects san :
  conflicts table relation_id subjects san = false →
  conflicts (updated_mapping table san relation_id) relation_id subjects san = false.
Proof.
  intros Hno. apply not_true_iff_false. intros Hyes.
  apply conflicts_identifier_set in Hyes as (kind & value & t & Hin & Hown & Hne).
  rewrite owner_updated_mapping in Hown.
  destruct (decide ((kind, value) ∈ san_identifiers san)); [congruence|].
  apply not_true_iff_false in Hno. apply Hno.
  apply conflicts_identifier_set. by exists kind, value, t.
Qed.

Lemma reservation_table_after_callback r csr relation_id w csr_object san :
  relations w !! PEER_RELATION_NAME = Some r →
  load_pem_x509_csr csr = Some csr_object →
  subject_alternative_name csr_object = Some san →
  reservation_table
    (world_after
       (LimitToFirstRequester_callback load_pem_x509_csr (Some PEER_RELATION_NAME)
          csr relation_id) w)
  = updated_mapping (reservation_table w) san relation_id.
Proof.
  intros Hr Hcsr Hsan. unfold world_after.
  rewrite (LimitToFirstRequester_callback_run _ _ r _ _ _ csr_object san) by done.
  unfold reservation_table. simpl. rewrite lookup_insert_eq, Hr.
  unfold store_reserved_identifiers. simpl. by rewrite lookup_insert_eq.
Qed.

(** The callback of an accepted request keeps every reservation and
    adds reservations for the requesting relation only. *)
Lemma LimitToFirstRequester_callback_table
    _relation csr relation_id requirer_csrs w w1 :
  _relation = relation_reference PEER_RELATION_NAME w →
  relations w1 = relations w →
  result (LimitToFirstRequester_evaluate load_pem_x509_csr _relation
            csr relation_id requirer_csrs) w = Return true →
  let w2 := world_after
              (LimitToFirstRequester_callback load_pem_x509_csr _relation
                 csr relation_id) w1 in
  reservations_kept w w2 ∧ reservations_added_for relation_id w w2.
Proof.
  intros Href Hrel Hacc w2. subst w2.
  destruct (LimitToFirstRequester_accepts_parsed _ _ _ _ _ _ Hacc)
    as (relation & csr_object & san & -> & Hcsr & Hsan).
  unfold relation_reference in Href.
  destruct (relations w !! PEER_RELATION_NAME) as [r|] eqn:Hr; [|done].
  injection Href as ->.
  rewrite (LimitToFirstRequester_evaluate_result _ _ r _ _ _ _ csr_object san)
    in Hacc by done.
  injection Hacc as Hacc. apply negb_true_iff in Hacc.
  assert (reservation_table w
          = default ∅ (Relation.app_data r !! "reserved-identifiers")) as Htable.
  { unfold reservation_table. by rewrite Hr. }
  rewrite <- Htable in Hacc.
  unfold reservations_kept, reservations_added_for.
  rewrite (reservation_table_after_callback r _ _ _ csr_object san)
    by (by rewrite ?Hrel).
  rewrite (reservation_table_reads w w1 Hrel).
  split; intros kind value t; rewrite owner_updated_mapping;
    destruct (decide ((kind, value) ∈ san_identifiers san)) as [Hin|Hin].
  - intros Hown. f_equal. destruct (decide (relation_id = t)) as [|Hne]; [done|].
    apply not_true_iff_false in Hacc. destruct Hacc.
    apply conflicts_identifier_set. exists kind, value, t.
    split; [by apply san_identifiers_covered|]. split; [done|congruence].
  - done.
  - intros [= <-]. by right.
  - by left.
Qed.

End FirstRequesterTable.

(** The controller keeps every reservation and adds reservations for the
    requesting relation only. *)
Lemma _is_certificate_allowed_table load_pem_x509_csr csr relation_id w :
  let w' := world_after (_is_certificate_allowed load_pem_x509_csr csr relation_id) w in
  reservations_kept w w' ∧ reservations_added_for relation_id w w'.
Proof.
  intros w'. subst w'.
  destruct (_is_certificate_allowed_spec load_pem_x509_csr csr relation_id w)
    as (Hiff & _ & _ & _ & _ & Hdenied & _).
  destruct (result (_is_certificate_allowed load_pem_x509_csr csr relation_id) w)
    as [[]|e] eqn:Hres.
  2,3: destruct (Hdenied ltac:(done)) as [_ Hr];
       auto using reservations_kept_refl, reservations_added_for_refl.
  clear Hdenied. apply proj1 in Hiff. specialize (Hiff eq_refl).
  pose proof (active_filters_well_behaved load_pem_x509_csr w) as Hwb.
  destruct (all_evaluate_spec csr relation_id (requirer_csrs w) _ Hwb w)
    as (l & _ & Hr & _).
  unfold all_accept, result, world_after in *.
  rewrite _is_certificate_allowed_unfold in Hres |- *. cbv zeta in *.
  destruct (all_evaluate _ csr relation_id (requirer_csrs w) w) as [[[]|e] w1];
    simpl in Hres, Hr; try discriminate.
  clear Hres. revert Hiff. rewrite active_filters_eq.
  assert (∀ i, relations (add_invocation i w1) = relations w) as Hinv by done.
  destruct (enabled "limit-to-one-request" w),
    (enabled "limit-to-first-requester" w); simpl app; intros Hacc.
  - specialize (Hacc _ (list_elem_of_further _ _ _ (list_elem_of_here _ _))).
    cbn [evaluate LimitToFirstRequester] in Hacc.
    pose proof (LimitToFirstRequester_callback_table load_pem_x509_csr _ csr
                  relation_id (requirer_csrs w) w
                  (add_invocation ("LimitToFirstRequester", Callback)
                     (add_invocation ("LimitToOneRequest", Callback) w1))
                  eq_refl Hr Hacc) as Htable.
    unfold world_after in Htable.
    rewrite each_callback_cons. cbn [callback class_name LimitToOneRequest].
    unfold LimitToOneRequest_callback, ret. cbv beta iota.
    rewrite each_callback_cons. cbn [callback class_name LimitToFirstRequester].
    by destruct (LimitToFirstRequester_callback _ _ _ _ _) as [[[]|e] w2].
  - rewrite each_callback_cons. simpl.
    auto using reservations_kept_refl, reservations_added_for_refl.
  - specialize (Hacc _ (list_elem_of_here _ _)).
    cbn [evaluate LimitToFirstRequester] in Hacc.
    pose proof (LimitToFirstRequester_callback_table load_pem_x509_csr _ csr
                  relation_id (requirer_csrs w) w
                  (add_invocation ("LimitToFirstRequester", Callback) w1)
                  eq_refl Hr Hacc) as Htable.
    unfold world_after in Htable.
    rewrite each_callback_cons. cbn [callback class_name LimitToFirstRequester].
    by destruct (LimitToFirstRequester_callback _ _ _ _ _) as [[[]|e] w2].
  - simpl. auto using reservations_kept_refl, reservations_added_for_refl.
Qed.

(** Relations after each handler other than the creation request. *)
Lemma other_handlers_relations w :
  relations (world_after _update_status w) = relations w
  ∧ (∀ event,
       relations (world_after (_on_certificate_revocation_request event) w)
       = relations w)
  ∧ (∀ event,
       relations (world_after (_on_certificate_available event) w) = relations w)
  ∧ (∀ event,
       relations (world_after (_on_certificate_invalidated event) w) = relations w)
  ∧ relations (world_after _on_all_certificates_invalidated w) = relations w.
Proof.
  unfold world_after. split; [|split; [|split; [|split]]].
  - unfold _update_status, get_relation. run. cases; done.
  - intros event. unfold _on_certificate_revocation_request, get_relation,
      encode.
    run. destruct (relation_reference _ w); simpl; [|done].
    by destruct (has_surrogate _).
  - intros event. rewrite _on_certificate_available_unfold,
      _get_relation_id_for_csr_unfold. cbv zeta. cases; done.
  - intros event. unfold _on_certificate_invalidated. run. cases; done.
  - done.
Qed.

Lemma _on_certificate_creation_request_table load_pem_x509_csr event w :
  let w' := world_after (_on_certificate_creation_request load_pem_x509_csr event) w in
  reservations_kept w w'
  ∧ reservations_added_for (CertificateCreationRequestEvent.relation_id event) w w'.
Proof.
  intros w'. subst w'.
  pose proof (_is_certificate_allowed_table load_pem_x509_csr
                (utf8 (CertificateCreationRequestEvent.certificate_signing_request
                           event))
                (CertificateCreationRequestEvent.relation_id event) w) as Htable.
  unfold world_after in *. rewrite _on_certificate_creation_request_unfold.
  cbv zeta in *.
  destruct (relations w !! RELATION_NAME_TO_TLS_PROVIDER).
  - destruct (has_surrogate _);
      [auto using reservations_kept_refl, reservations_added_for_refl|].
    by destruct (_is_certificate_allowed _ _ _ _) as [[[]|e] w1].
  - auto using reservations_kept_refl, reservations_added_for_refl.
Qed.

Lemma step_reservations_kept load_pem_x509_csr w w' :
  step load_pem_x509_csr w w' → reservations_kept w w'.
Proof.
  destruct 1 as [ev w|w w' Henv].
  - destruct (other_handlers_relations w) as (H1 & H2 & H3 & H4 & H5).
    destruct ev; simpl; auto using reservations_kept_refl.
    apply _on_certificate_creation_request_table.
  - intros kind value t. by rewrite Henv.
Qed.

(** C8. After [LimitToFirstRequester] has accepted a CSR of relation [T]
    and its callback has stored the claim, the same CSR of [T] is accepted
    again, whatever the outstanding requests, and calling the callback
    again returns and leaves the world, and so the Reservation Table, as it
    was. *)
Theorem C8_same_tenant_reclaim_idempotent
    (load_pem_x509_csr : bytes → option CertificateSigningRequest)
    (csr : bytes) (T : Z) (requirer_csrs requirer_csrs' : list RequirerCSR.t)
    (w : World) (r : Relation.t) :
  let F := LimitToFirstRequester load_pem_x509_csr (Some PEER_RELATION_NAME) in
  relations w !! PEER_RELATION_NAME = Some r →
  result (evaluate F csr T requirer_csrs) w = Return true →
  let w1 := world_after (callback F csr T) w in
  result (callback F csr T) w = Return tt
  ∧ result (evaluate F csr T requirer_csrs') w1 = Return true
  ∧ callback F csr T w1 = (Return tt, w1)
  ∧ reservation_table (world_after (callback F csr T) w1) = reservation_table w1.
Proof.
  intros F Hr Hacc w1. subst F w1. cbn [evaluate callback LimitToFirstRequester] in *.
  destruct (LimitToFirstRequester_accepts_parsed _ _ _ _ _ _ Hacc)
    as (relation & csr_object & san & [= <-] & Hcsr & Hsan).
  rewrite (LimitToFirstRequester_evaluate_result _ _ r _ _ _ _ csr_object san)
    in Hacc by done.
  injection Hacc as Hacc. apply negb_true_iff in Hacc.
  set (table := default ∅ (Relation.app_data r !! "reserved-identifiers")) in *.
  set (r1 := store_reserved_identifiers (updated_mapping table san T) r).
  assert (Relation.app_data r1 !! "reserved-identifiers"
          = Some (updated_mapping table san T)) as Hdata.
  { unfold r1, store_reserved_identifiers. simpl. apply lookup_insert_eq. }
  unfold result, world_after.
  rewrite (LimitToFirstRequester_callback_run _ _ r _ _ _ csr_object san) by done.
  fold table r1. cbn [fst snd].
  set (w1 := set_relations (<[PEER_RELATION_NAME := r1]> (relations w)) w).
  assert (relations w1 !! PEER_RELATION_NAME = Some r1) as Hr1.
  { unfold w1. simpl. apply lookup_insert_eq. }
  assert (LimitToFirstRequester_callback load_pem_x509_csr (Some PEER_RELATION_NAME)
            csr T w1 = (Return tt, w1)) as Hagain.
  { rewrite (LimitToFirstRequester_callback_run _ _ r1 _ _ _ csr_object san) by done.
    rewrite Hdata. simpl. rewrite updated_mapping_idempotent.
    rewrite (store_reserved_identifiers_same _ r1 Hdata).
    rewrite (insert_id (relations w1)) by done.
    by rewrite set_relations_same. }
  split; [done|]. split; [|split].
  - pose proof (LimitToFirstRequester_evaluate_result load_pem_x509_csr
                  PEER_RELATION_NAME r1 csr T requirer_csrs' w1 csr_object san
                  Hr1 Hcsr Hsan) as Hres.
    unfold result in Hres. rewrite Hres, Hdata. simpl.
    by rewrite conflicts_after_update.
  - exact Hagain.
  - by rewrite Hagain.
Qed.

Lemma C8_same_tenant_reclaim_idempotent_witness :
  let F := LimitToFirstRequester Fixture.load_pem_x509_csr (Some PEER_RELATION_NAME) in
  let w := Fixture.world Fixture.only_first Fixture.related [] in
  let w1 := world_after (callback F (utf8 Fixture.csr_api_a) 1) w in
  owner (reservation_table w1) "dns" "api.a.com" = Some 1
  ∧ result (evaluate F (utf8 Fixture.csr_api_a) 1 []) w1 = Return true
  ∧ callback F (utf8 Fixture.csr_api_a) 1 w1 = (Return tt, w1).
Proof.
  intros F w w1.
  destruct (C8_same_tenant_reclaim_idempotent
              Fixture.load_pem_x509_csr (utf8 Fixture.csr_api_a) 1 [] [] w
              Fixture.empty_relation) as (_ & H1 & H2 & _).
  - reflexivity.
  - vm_compute. reflexivity.
  - split; [vm_compute; reflexivity|]. split; [exact H1|exact H2].
Defined.

(** C9. Along every run of the system (events handled by the charm,
    changes of its environment that do not write the reserved identifiers)
    a reservation, once in the Reservation Table, stays there with the same
    owner; an identifier has at most one owner; the handlers of revocation
    requests and of invalidated certificates leave the table as it is; and
    the creation request handler only adds reservations for the requesting
    relation. *)
Theorem C9_reservations_persist
    (load_pem_x509_csr : bytes → option CertificateSigningRequest) (w w' : World) :
  rtc (step load_pem_x509_csr) w w' →
  (∀ kind value t,
     owner (reservation_table w) kind value = Some t →
     owner (reservation_table w') kind value = Some t)
  ∧ (∀ kind value t1 t2,
       owner (reservation_table w') kind value = Some t1 →
       owner (reservation_table w') kind value = Some t2 → t1 = t2)
  ∧ (∀ event,
       reservation_table (world_after (_on_certificate_revocation_request event) w')
       = reservation_table w')
  ∧ (∀ event,
       reservation_table (world_after (_on_certificate_invalidated event) w')
       = reservation_table w')
  ∧ reservation_table (world_after _on_all_certificates_invalidated w')
    = reservation_table w'
  ∧ (∀ event,
       let w'' := world_after
                    (_on_certificate_creation_request load_pem_x509_csr event) w' in
       reservations_kept w' w''
       ∧ reservations_added_for
           (CertificateCreationRequestEvent.relation_id event) w' w'').
Proof.
  intros Hrun. split.
  { induction Hrun as [w|w w1 w2 Hstep _ IH]; [done|].
    intros kind value t Hown. apply IH.
    by apply (step_reservations_kept _ _ _ Hstep). }
  destruct (other_handlers_relations w') as (_ & Hrev & _ & Hinv & Hall).
  split; [|split; [|split; [|split]]].
  - intros kind value t1 t2 H1 H2. congruence.
  - intros event. by apply reservation_table_reads.
  - intros event. by apply reservation_table_reads.
  - by apply reservation_table_reads.
  - intros event. apply _on_certificate_creation_request_table.
Qed.

Lemma C9_reservations_persist_witness :
  let load := Fixture.load_pem_x509_csr in
  let w0 := Fixture.world Fixture.both_filters Fixture.related
              [RequirerCSR.mk 1 Fixture.csr_api_a] in
  let w1 := world_after
              (handle load (certificate_creation_request
                 (CertificateCreationRequestEvent.mk Fixture.csr_api_a 1 false))) w0 in
  let w2 := world_after
              (handle load (certificate_revocation_request
                 (CertificateRevocationRequestEvent.mk Fixture.csr_api_a))) w1 in
  let w3 := world_after
              (handle load (certificate_creation_request
                 (CertificateCreationRequestEvent.mk Fixture.csr_api_a 2 false))) w2 in
  owner (reservation_table w1) "dns" "api.a.com" = Some 1
  ∧ owner (reservation_table w3) "dns" "api.a.com" = Some 1.
Proof.
  intros load w0 w1 w2 w3.
  assert (owner (reservation_table w1) "dns" "api.a.com" = Some 1) as H1
    by (vm_compute; reflexivity).
  split; [exact H1|].
  refine (proj1 (C9_reservations_persist load w1 w3 _) "dns" "api.a.com" 1 H1).
  eapply rtc_l; [apply step_handle|]. eapply rtc_l; [apply step_handle|].
  apply rtc_refl.
Defined.

(** ** The statements at work on the fixtures *)

Lemma C2_first_claim_wins_evaluate_witness :
  let F := LimitToFirstRequester Fixture.load_pem_x509_csr (Some PEER_RELATION_NAME) in
  let w := Fixture.world Fixture.only_first Fixture.reserved_for_1 [] in
  result (evaluate F (utf8 Fixture.csr_cn_clash) 2 []) w = Return false
  ∧ result (evaluate F (utf8 Fixture.not_a_csr) 2 []) w = Raise ValueError.
Proof.
  intros F w.
  destruct (C2_first_claim_wins_evaluate
              Fixture.load_pem_x509_csr (utf8 Fixture.csr_cn_clash) 2 [] w
              Fixture.relation_reserved_for_1 eq_refl) as [_ Hreadable].
  destruct (Hreadable
              {| subject_common_names := ["api.a.com"];
                 subject_alternative_name := Some [DNSName "other.example"] |}
              [DNSName "other.example"] eq_refl eq_refl) as [Hdeny _].
  destruct (C2_first_claim_wins_evaluate
              Fixture.load_pem_x509_csr (utf8 Fixture.not_a_csr) 2 [] w
              Fixture.relation_reserved_for_1 eq_refl) as [Hraise _].
  split.
  - apply Hdeny. exists "dns", "api.a.com", 1.
    split; [|split; [vm_compute; reflexivity|done]].
    apply list_elem_of_In. vm_compute. auto.
  - apply Hraise. reflexivity.
Defined.

Lemma C6_fail_closed_without_peer_witness :
  let w := Fixture.world Fixture.only_first Fixture.no_peer [] in
  result (get_relation PEER_RELATION_NAME) w = Return None
  ∧ result (evaluate (LimitToFirstRequester Fixture.load_pem_x509_csr None)
              (utf8 Fixture.csr_api_a) 1 []) w = Return false.
Proof.
  intros w.
  destruct (C6_fail_closed_without_peer
              Fixture.load_pem_x509_csr (utf8 Fixture.csr_api_a) 1 [] w)
    as (Hnone & Hdeny & _).
  split; [apply Hnone; reflexivity|exact Hdeny].
Defined.

(** The scenario of the specification, end to end: relation 1 is granted
    "api.a.com", relation 2 is then denied it, relation 1 may ask again and
    the table stays the same. *)
Example end_to_end :
  let load := Fixture.load_pem_x509_csr in
  let request t :=
    _on_certificate_creation_request load
      (CertificateCreationRequestEvent.mk Fixture.csr_api_a t false) in
  let w0 := Fixture.world Fixture.both_filters Fixture.related
              [RequirerCSR.mk 1 Fixture.csr_api_a] in
  let w1 := world_after (request 1) w0 in
  let w2 := world_after (request 2) w1 in
  let w3 := world_after (request 1) w2 in
  owner (reservation_table w1) "dns" "api.a.com" = Some 1
  ∧ calls w2 = [request_certificate_creation (utf8 Fixture.csr_api_a) false]
  ∧ length (calls w3) = 2%nat
  ∧ owner (reservation_table w3) "dns" "api.a.com" = Some 1.
Proof.
  intros load request w0 w1 w2 w3.
  split; [|split; [|split]]; vm_compute; reflexivity.
Qed.

(** ** Further properties of the filters *)

(** X1. [evaluate] of either filter changes nothing in the world but the
    log; it leaves the log alone when it returns [True] or raises, and
    appends exactly one record when it returns [False]. *)
Theorem X1_evaluate_only_logs_denials
    (load_pem_x509_csr : bytes → option CertificateSigningRequest)
    (_relation : option string)
    (csr : bytes) (relation_id : Z) (requirer_csrs : list RequirerCSR.t) (w : World) :
  quiet_unless_denied (evaluate LimitToOneRequest csr relation_id requirer_csrs) w
  ∧ quiet_unless_denied
      (evaluate (LimitToFirstRequester load_pem_x509_csr _relation)
         csr relation_id requirer_csrs) w.
Proof.
  unfold quiet_unless_denied. split; (split; [apply wb_evaluate_frame;
    auto using LimitToOneRequest_well_behaved, LimitToFirstRequester_well_behaved|]).
  - cbn [evaluate LimitToOneRequest]. unfold LimitToOneRequest_evaluate.
    destruct (decide _); run; [by eexists|done].
  - cbn [evaluate LimitToFirstRequester]. run_first.
    destruct _relation as [relation|]; simpl; [|by eexists].
    destruct (load_pem_x509_csr csr) as [csr_object|]; simpl; [|done].
    destruct (subject_alternative_name csr_object) as [san|]; simpl; [|done].
    repeat (match goal with |- context [List.find ?p ?l] =>
              destruct (List.find p l) end; simpl; [by eexists|]).
    done.
Qed.

(** X12. The verdict of [LimitToOneRequest.evaluate] for a relation looks
    at that relation's outstanding requests only: requests of other
    relations, appended to the list, do not change it; and a verdict
    [True] on a list is still [True] on any shorter prefix of it. *)
Theorem X12_single_request_isolation
    (csr : bytes) (relation_id : Z)
    (requirer_csrs others : list RequirerCSR.t) (w : World) :
  (Forall (λ c, RequirerCSR.relation_id c ≠ relation_id) others →
   result (evaluate LimitToOneRequest csr relation_id (requirer_csrs ++ others)) w
   = result (evaluate LimitToOneRequest csr relation_id requirer_csrs) w)
  ∧ (result (evaluate LimitToOneRequest csr relation_id (requirer_csrs ++ others)) w
     = Return true →
     result (evaluate LimitToOneRequest csr relation_id requirer_csrs) w = Return true).
Proof.
  cbn [evaluate LimitToOneRequest]. rewrite !LimitToOneRequest_evaluate_result.
  rewrite relevant_csrs_app. split.
  - intros Hothers.
    assert (relevant_csrs relation_id others = []) as ->; [|by rewrite app_nil_r].
    unfold relevant_csrs. induction Hothers as [|c l Hc _ IH]; [done|].
    by rewrite filter_cons_False.
  - intros [= H]. f_equal. apply bool_decide_eq_true in H.
    apply bool_decide_eq_true. rewrite length_app in H. lia.
Qed.

Lemma X12_single_request_isolation_witness :
  result (evaluate LimitToOneRequest (utf8 "csr-A") 1
            ([RequirerCSR.mk 1 "csr-A"]
               ++ [RequirerCSR.mk 2 "csr-B"; RequirerCSR.mk 2 "csr-C"]))
         (Fixture.world ∅ ∅ [])
  = result (evaluate LimitToOneRequest (utf8 "csr-A") 1 [RequirerCSR.mk 1 "csr-A"])
           (Fixture.world ∅ ∅ []).
Proof.
  apply (X12_single_request_isolation (utf8 "csr-A") 1).
  repeat constructor; simpl; lia.
Defined.

(** X5. What [_set_reserved_identifiers] stores through a relation,
    [_get_reserved_identifiers] reads back through it; the other relations
    and the other keys of the relation's data are left alone.  Without a
    relation the setter does nothing and the getter returns the empty
    document, as it does for a relation that holds no document yet. *)
Theorem X5_reserved_identifiers_round_trip
    (relation : string) (r : Relation.t) (new_mapping : gmap string (gmap string Z))
    (w : World) :
  relations w !! relation = Some r →
  let w' := world_after (_set_reserved_identifiers (Some relation) new_mapping) w in
  result (_get_reserved_identifiers (Some relation)) w' = Return new_mapping
  ∧ (∀ other, other ≠ relation → relations w' !! other = relations w !! other)
  ∧ (∀ r' key, relations w' !! relation = Some r' → key ≠ "reserved-identifiers" →
       Relation.app_data r' !! key = Relation.app_data r !! key)
  ∧ _set_reserved_identifiers None new_mapping w = (Return tt, w)
  ∧ result (_get_reserved_identifiers None) w = Return ∅
  ∧ (Relation.app_data r !! "reserved-identifiers" = None →
     result (_get_reserved_identifiers (Some relation)) w = Return ∅).
Proof.
  intros Hr w'. subst w'. run_first.
  rewrite (alter_present _ _ _ r Hr).
  split; [|split; [|split; [|split; [|split]]]]; try done.
  - rewrite lookup_insert_eq. simpl. by rewrite lookup_insert_eq.
  - intros other Hne. by rewrite lookup_insert_ne.
  - intros r' key Hr' Hkey. rewrite lookup_insert_eq in Hr'.
    injection Hr' as <-. simpl. by rewrite lookup_insert_ne.
  - intros Hnone. by rewrite Hr, Hnone.
Qed.

Lemma X5_reserved_identifiers_round_trip_witness :
  let m : gmap string (gmap string Z) := {[ "dns" := {[ "api.a.com" := 1 ]} ]} in
  let w := Fixture.world ∅ Fixture.related [] in
  result (_get_reserved_identifiers (Some PEER_RELATION_NAME))
    (world_after (_set_reserved_identifiers (Some PEER_RELATION_NAME) m) w)
  = Return m.
Proof.
  intros m w.
  apply (X5_reserved_identifiers_round_trip
           PEER_RELATION_NAME Fixture.empty_relation m w).
  reflexivity.
Defined.

(** X4. On its own, the callback of [LimitToFirstRequester] gives every
    identifier of the CSR's Subject Alternative Name to the requesting
    relation, whoever owned it before (the entries of the right operand of
    [|] win), and changes the owner of no other identifier; the subject
    common names are not reserved. *)
Theorem X4_callback_reserves_san_identifiers
    (load_pem_x509_csr : bytes → option CertificateSigningRequest)
    (csr : bytes) (relation_id : Z) (w : World)
    (r : Relation.t) (csr_object : CertificateSigningRequest)
    (san : list GeneralName) :
  relations w !! PEER_RELATION_NAME = Some r →
  load_pem_x509_csr csr = Some csr_object →
  subject_alternative_name csr_object = Some san →
  let commit :=
    callback (LimitToFirstRequester load_pem_x509_csr (Some PEER_RELATION_NAME))
      csr relation_id in
  let table' := reservation_table (world_after commit w) in
  result commit w = Return tt
  ∧ (∀ kind value, (kind, value) ∈ san_identifiers san →
       owner table' kind value = Some relation_id)
  ∧ (∀ kind value, (kind, value) ∉ san_identifiers san →
       owner table' kind value = owner (reservation_table w) kind value)
  ∧ (∀ cn, cn ∈ subject_common_names csr_object →
       cn ∉ get_values_for_DNSName san →
       owner table' "dns" cn = owner (reservation_table w) "dns" cn).
Proof.
  intros Hr Hcsr Hsan commit table'. subst commit table'.
  cbn [callback LimitToFirstRequester].
  rewrite (reservation_table_after_callback _ r _ _ _ csr_object san) by done.
  split; [|split; [|split]].
  - apply LimitToFirstRequester_callback_returns. eauto.
  - intros kind value Hin. rewrite owner_updated_mapping. by rewrite decide_True.
  - intros kind value Hin. rewrite owner_updated_mapping. by rewrite decide_False.
  - intros cn _ Hnot. rewrite owner_updated_mapping. rewrite decide_False; [done|].
    rewrite elem_of_san_identifiers. intros [[_ ?]|[[? _]|[? _]]]; done.
Qed.

Lemma X4_callback_reserves_san_identifiers_witness :
  let commit :=
    callback (LimitToFirstRequester Fixture.load_pem_x509_csr (Some PEER_RELATION_NAME))
      (utf8 Fixture.csr_api_a) 2 in
  let w := Fixture.world Fixture.only_first Fixture.reserved_for_1 [] in
  owner (reservation_table w) "dns" "api.a.com" = Some 1
  ∧ owner (reservation_table (world_after commit w)) "dns" "api.a.com" = Some 2.
Proof.
  intros commit w. split; [vm_compute; reflexivity|].
  apply (X4_callback_reserves_san_identifiers
           Fixture.load_pem_x509_csr (utf8 Fixture.csr_api_a) 2 w
           Fixture.relation_reserved_for_1
           {| subject_common_names := ["a.example"];
              subject_alternative_name := Some [DNSName "api.a.com"] |}
           [DNSName "api.a.com"] eq_refl eq_refl eq_refl).
  apply list_elem_of_In. vm_compute. auto.
Defined.

(** ** Further properties of the resolver *)

Lemma resolve_Some_inv csr w t :
  result (_get_relation_id_for_csr csr) w = Return (Some t) →
  requested_by csr w t ∧ ∀ t', requested_by csr w t' → t' = t.
Proof.
  unfold result. rewrite _get_relation_id_for_csr_unfold. cbv zeta.
  destruct (decide (size _ = 0%nat)); [done|].
  destruct (decide (1 < size _)%nat); [done|].
  assert (size (matching_relation_ids csr w) = 1%nat) as Hsize by lia.
  apply size_1_elem_of in Hsize as (x & Hx). apply leibniz_equiv in Hx.
  rewrite Hx, elements_singleton. simpl. intros [= <-]. split.
  - apply elem_of_matching_relation_ids. rewrite Hx. by apply elem_of_singleton.
  - intros t' Ht'. apply elem_of_matching_relation_ids in Ht'.
    rewrite Hx in Ht'. by apply elem_of_singleton in Ht'.
Qed.

(** X10. [_get_relation_id_for_csr] always returns: the [pop] of the set
    is only reached on a set of one element.  Its result depends on the
    outstanding requests only through the set of relations that sent the
    CSR, so neither their order nor repeated entries matter; and an id it
    returns is the id of the one relation that sent it. *)
Theorem X10_resolver_total_and_set_based (csr : str) (w : World) :
  (∃ o, result (_get_relation_id_for_csr csr) w = Return o)
  ∧ (∀ t, result (_get_relation_id_for_csr csr) w = Return (Some t) →
          requested_by csr w t ∧ ∀ t', requested_by csr w t' → t' = t)
  ∧ (∀ w2, (∀ t, requested_by csr w2 t ↔ requested_by csr w t) →
           result (_get_relation_id_for_csr csr) w2
           = result (_get_relation_id_for_csr csr) w).
Proof.
  split; [|split].
  - unfold result. rewrite _get_relation_id_for_csr_unfold. cbv zeta.
    destruct (decide (size _ = 0%nat)); [by eexists|].
    destruct (decide (1 < size _)%nat); [by eexists|].
    assert (size (matching_relation_ids csr w) = 1%nat) as Hsize by lia.
    apply size_1_elem_of in Hsize as (x & Hx). apply leibniz_equiv in Hx.
    rewrite Hx, elements_singleton. by eexists.
  - apply resolve_Some_inv.
  - intros w2 Hsame.
    assert (matching_relation_ids csr w2 = matching_relation_ids csr w) as Hids.
    { apply set_eq. intros t. by rewrite !elem_of_matching_relation_ids. }
    unfold result. rewrite !_get_relation_id_for_csr_unfold. cbv zeta.
    rewrite Hids.
    destruct (decide (size _ = 0%nat)); [done|].
    destruct (decide (1 < size _)%nat); [done|].
    by destruct (elements _).
Qed.

Lemma X10_resolver_total_and_set_based_witness :
  result (_get_relation_id_for_csr "csrX")
    (Fixture.world ∅ ∅ [RequirerCSR.mk 1 "csrX"; RequirerCSR.mk 1 "csrX"])
  = Return (Some 1)
  ∧ requested_by "csrX"
      (Fixture.world ∅ ∅ [RequirerCSR.mk 1 "csrX"; RequirerCSR.mk 1 "csrX"]) 1.
Proof.
  assert (result (_get_relation_id_for_csr "csrX")
            (Fixture.world ∅ ∅ [RequirerCSR.mk 1 "csrX"; RequirerCSR.mk 1 "csrX"])
          = Return (Some 1)) as H by (vm_compute; reflexivity).
  split; [exact H|].
  exact (proj1 (proj1 (proj2 (X10_resolver_total_and_set_based "csrX" _)) 1 H)).
Defined.

(** ** Further properties of the handlers *)

Lemma called_creation_request load_pem_x509_csr event w :
  let s := CertificateCreationRequestEvent.certificate_signing_request event in
  let csr := utf8 s in
  called (_on_certificate_creation_request load_pem_x509_csr event) w
  = match relations w !! RELATION_NAME_TO_TLS_PROVIDER with
    | None => [defer]
    | Some _ =>
        if has_surrogate s then []
        else
          match result (_is_certificate_allowed load_pem_x509_csr csr
                          (CertificateCreationRequestEvent.relation_id event)) w with
          | Return true =>
              [request_certificate_creation
                 csr (CertificateCreationRequestEvent.is_ca event)]
          | _ => []
          end
    end.
Proof.
  intros s csr.
  destruct (_is_certificate_allowed_spec load_pem_x509_csr csr
              (CertificateCreationRequestEvent.relation_id event) w)
    as (_ & Hk & _).
  unfold called, result, world_after in *.
  rewrite _on_certificate_creation_request_unfold. cbv zeta. fold s csr.
  destruct (relations w !! RELATION_NAME_TO_TLS_PROVIDER).
  - destruct (has_surrogate s); [simpl; by rewrite drop_all|].
    destruct (_is_certificate_allowed _ _ _ _) as [[[]|e] w1]; simpl in *;
      rewrite Hk; by rewrite ?drop_app_length, ?drop_all.
  - simpl. by rewrite drop_app_length.
Qed.

Lemma called_revocation_request event w :
  called (_on_certificate_revocation_request event) w
  = match relations w !! RELATION_NAME_TO_TLS_PROVIDER with
    | None => []
    | Some _ =>
        if has_surrogate
             (CertificateRevocationRequestEvent.certificate_signing_request event)
        then []
        else
          [request_certificate_revocation
             (utf8 (CertificateRevocationRequestEvent.certificate_signing_request
                        event))]
    end.
Proof.
  unfold called, world_after, _on_certificate_revocation_request, encode.
  unfold bind at 1. rewrite get_relation_run. unfold relation_reference.
  destruct (relations w !! RELATION_NAME_TO_TLS_PROVIDER); simpl.
  - destruct (has_surrogate _); run.
    + by rewrite drop_all.
    + by rewrite drop_app_length.
  - by rewrite drop_all.
Qed.

(** X9. Whatever event the charm handles, a [set_relation_certificate]
    call it makes is the only call of that handling, comes from a
    certificate-available event, and names a relation that has an
    outstanding request with exactly the certificate's CSR, is the only
    such relation, and has a non-zero id. *)
Theorem X9_delivery_only_to_requester
    (load_pem_x509_csr : bytes → option CertificateSigningRequest)
    (ev : Event) (w : World)
    (certificate csr ca : str) (chain : list str) (t : Z) :
  set_relation_certificate certificate csr ca chain t
    ∈ called (handle load_pem_x509_csr ev) w →
  ev = certificate_available (CertificateAvailableEvent.mk certificate csr ca chain)
  ∧ requested_by csr w t
  ∧ (∀ t', requested_by csr w t' → t' = t)
  ∧ t ≠ 0
  ∧ called (handle load_pem_x509_csr ev) w
    = [set_relation_certificate certificate csr ca chain t].
Proof.
  destruct ev as [|event|event|event|event|]; cbn [handle].
  - unfold called, world_after, _update_status, bind. rewrite get_relation_run.
    destruct (relation_reference _ w); simpl; rewrite drop_all;
      intros H; by apply elem_of_nil in H.
  - rewrite called_creation_request. cbv zeta.
    destruct (relations w !! RELATION_NAME_TO_TLS_PROVIDER);
      [destruct (has_surrogate _); [|destruct (result _ w) as [[]|e]]|]; intros H;
      repeat (apply elem_of_cons in H as [H|H]; [done|]); by apply elem_of_nil in H.
  - rewrite called_revocation_request.
    destruct (relations w !! RELATION_NAME_TO_TLS_PROVIDER);
      [destruct (has_surrogate _)|]; intros H;
      repeat (apply elem_of_cons in H as [H|H]; [done|]); by apply elem_of_nil in H.
  - pose proof (resolve_Some_inv
                  (CertificateAvailableEvent.certificate_signing_request event) w)
      as Hinv.
    unfold called, result, world_after in *.
    rewrite _on_certificate_available_unfold.
    destruct (_get_relation_id_for_csr _ w) as [[[n|]|e] w1] eqn:Hres; simpl in *.
    + pose proof Hres as Hw. rewrite _get_relation_id_for_csr_unfold in Hw.
      cbv zeta in Hw.
      assert (w1 = w) as ->.
      { destruct (decide (size _ = 0%nat)); [by simplify_eq|].
        destruct (decide (1 < size _)%nat); [by simplify_eq|].
        destruct (elements _); by simplify_eq. }
      destruct (Hinv n eq_refl) as [Hreq Huniq].
      destruct (Z.eqb_spec n 0) as [->|Hne]; simpl.
      * rewrite drop_all. intros H. by apply elem_of_nil in H.
      * rewrite drop_app_length. intros H. apply list_elem_of_singleton in H.
        injection H as -> -> -> -> ->. by destruct event.
    + assert (calls w1 = calls w) as Hk.
      { rewrite _get_relation_id_for_csr_unfold in Hres. cbv zeta in Hres.
        destruct (decide (size _ = 0%nat)); [by simplify_eq|].
        destruct (decide (1 < size _)%nat); [by simplify_eq|].
        destruct (elements _); by simplify_eq. }
      rewrite Hk, drop_all. intros H. by apply elem_of_nil in H.
    + exfalso. rewrite _get_relation_id_for_csr_unfold in Hres. cbv zeta in Hres.
      destruct (decide (size _ = 0%nat)); [by simplify_eq|].
      destruct (decide (1 < size _)%nat) as [|Hn]; [by simplify_eq|].
      assert (size (matching_relation_ids
                      (CertificateAvailableEvent.certificate_signing_request event) w)
              = 1%nat) as Hsize by lia.
      apply size_1_elem_of in Hsize as (x & Hx). apply leibniz_equiv in Hx.
      rewrite Hx, elements_singleton in Hres. done.
  - unfold called, world_after, _on_certificate_invalidated.
    destruct (decide _); run.
    + rewrite drop_all. intros H. by apply elem_of_nil in H.
    + rewrite drop_app_length. intros H. by apply list_elem_of_singleton in H.
  - unfold called, world_after, _on_all_certificates_invalidated. run.
    rewrite drop_app_length. intros H. by apply list_elem_of_singleton in H.
Qed.

Lemma X9_delivery_only_to_requester_witness :
  let event := CertificateAvailableEvent.mk "certificate" "csrX" "ca" [] in
  let w := Fixture.world ∅ ∅ [RequirerCSR.mk 7 "csrX"; RequirerCSR.mk 8 "csrY"] in
  called (handle Fixture.load_pem_x509_csr (certificate_available event)) w
  = [set_relation_certificate "certificate" "csrX" "ca" [] 7]
  ∧ requested_by "csrX" w 7.
Proof.
  intros event w.
  assert (called (handle Fixture.load_pem_x509_csr (certificate_available event)) w
          = [set_relation_certificate "certificate" "csrX" "ca" [] 7]) as H
    by (vm_compute; reflexivity).
  split; [exact H|].
  apply (X9_delivery_only_to_requester Fixture.load_pem_x509_csr
           (certificate_available event) w "certificate" "csrX" "ca" [] 7).
  rewrite H. apply list_elem_of_here.
Defined.

(** X6. With neither filter switched on the chain is empty and
    [_is_certificate_allowed] returns [True] for any bytes, also bytes that
    are not a CSR, without touching the world; the creation request
    handler then forwards the bytes of any CSR string that encodes, when
    the provider relation is there. *)
Theorem X6_empty_chain_allows_everything
    (load_pem_x509_csr : bytes → option CertificateSigningRequest)
    (event : CertificateCreationRequestEvent.t) (w : World) :
  let s := CertificateCreationRequestEvent.certificate_signing_request event in
  enabled "limit-to-one-request" w = false →
  enabled "limit-to-first-requester" w = false →
  (∀ csr relation_id,
     _is_certificate_allowed load_pem_x509_csr csr relation_id w = (Return true, w))
  ∧ (is_Some (relations w !! RELATION_NAME_TO_TLS_PROVIDER) →
     has_surrogate s = false →
     _on_certificate_creation_request load_pem_x509_csr event w
     = (Return tt,
        add_call (request_certificate_creation
                    (utf8 s) (CertificateCreationRequestEvent.is_ca event)) w)).
Proof.
  intros s Hone Hfirst.
  assert (∀ csr relation_id,
            _is_certificate_allowed load_pem_x509_csr csr relation_id w
            = (Return true, w)) as Hallowed.
  { intros csr relation_id.
    rewrite _is_certificate_allowed_unfold, active_filters_eq, Hone, Hfirst.
    reflexivity. }
  split; [exact Hallowed|].
  intros [p Hp] Hs. rewrite _on_certificate_creation_request_unfold. cbv zeta.
  fold s. by rewrite Hp, Hs, Hallowed.
Qed.

Lemma X6_empty_chain_allows_everything_witness :
  let event := CertificateCreationRequestEvent.mk Fixture.not_a_csr 1 true in
  let w := Fixture.world ∅ Fixture.related [] in
  _on_certificate_creation_request Fixture.load_pem_x509_csr event w
  = (Return tt,
     add_call (request_certificate_creation (utf8 Fixture.not_a_csr) true) w).
Proof.
  intros event w.
  apply (X6_empty_chain_allows_everything Fixture.load_pem_x509_csr event w).
  - reflexivity.
  - reflexivity.
  - by eexists.
  - reflexivity.
Defined.

(** X7. The outbound calls of the creation request handler.  Without the
    provider relation it defers the event, sets the blocked status,
    consults no filter, logs nothing and leaves the relations alone.  With
    the provider relation: a CSR string that holds a surrogate makes it
    raise [UnicodeEncodeError] before any filter is consulted and any call
    is made; a CSR string that encodes gives exactly one call when every
    filter of the chain accepts, forwarding the encoded CSR of the event
    with the event's [is_ca]; and there is no call when some filter does
    not accept. *)
Theorem X7_creation_request_calls
    (load_pem_x509_csr : bytes → option CertificateSigningRequest)
    (event : CertificateCreationRequestEvent.t) (w : World) :
  let s := CertificateCreationRequestEvent.certificate_signing_request event in
  let csr := utf8 s in
  let relation_id := CertificateCreationRequestEvent.relation_id event in
  let handler := _on_certificate_creation_request load_pem_x509_csr event in
  let accepted := all_accept (active_filters load_pem_x509_csr w) csr relation_id w in
  (relations w !! RELATION_NAME_TO_TLS_PROVIDER = None →
   result handler w = Return tt
   ∧ called handler w = [defer]
   ∧ invoked handler w = []
   ∧ logged handler w = []
   ∧ relations (world_after handler w) = relations w
   ∧ unit_status (world_after handler w)
     = BlockedStatus "Need a relation to a TLS certificates provider")
  ∧ (is_Some (relations w !! RELATION_NAME_TO_TLS_PROVIDER) →
     has_surrogate s = true →
     handler w = (Raise UnicodeEncodeError, w))
  ∧ (is_Some (relations w !! RELATION_NAME_TO_TLS_PROVIDER) →
     has_surrogate s = false → accepted →
     result handler w = Return tt
     ∧ called handler w
       = [request_certificate_creation
            csr (CertificateCreationRequestEvent.is_ca event)])
  ∧ (is_Some (relations w !! RELATION_NAME_TO_TLS_PROVIDER) → ¬ accepted →
     called handler w = []).
Proof.
  intros s csr relation_id handler accepted. subst handler accepted.
  pose proof (called_creation_request load_pem_x509_csr event w) as Hcalled.
  cbv zeta in Hcalled. fold s csr relation_id in Hcalled.
  destruct (_is_certificate_allowed_spec load_pem_x509_csr csr relation_id w)
    as (Hiff & _).
  assert (is_Some (relations w !! RELATION_NAME_TO_TLS_PROVIDER) →
          has_surrogate s = true →
          _on_certificate_creation_request load_pem_x509_csr event w
          = (Raise UnicodeEncodeError, w)) as Hsurrogate.
  { intros [p Hp] Hs. rewrite _on_certificate_creation_request_unfold. cbv zeta.
    fold s. by rewrite Hp, Hs. }
  split; [|split; [|split]].
  - intros Hnone. rewrite Hcalled, Hnone.
    unfold result, invoked, logged, world_after.
    rewrite _on_certificate_creation_request_unfold, Hnone. simpl.
    by rewrite !drop_all.
  - exact Hsurrogate.
  - intros [p Hp] Hs Hacc. apply Hiff in Hacc. rewrite Hcalled, Hp, Hs, Hacc.
    split; [|done]. unfold result in *.
    rewrite _on_certificate_creation_request_unfold, Hp. cbv zeta.
    fold s csr relation_id. rewrite Hs.
    by destruct (_is_certificate_allowed _ _ _ _) as [[[]|e] w1]; simplify_eq/=.
  - intros [p Hp] Hnot. rewrite Hcalled, Hp.
    destruct (has_surrogate s); [done|].
    destruct (result _ w) as [[]|e] eqn:Hres; try done.
    destruct Hnot. by apply Hiff.
Qed.

Lemma X7_creation_request_calls_witness :
  let event := CertificateCreationRequestEvent.mk Fixture.csr_api_a 1 false in
  let handler := _on_certificate_creation_request Fixture.load_pem_x509_csr event in
  called handler (Fixture.world Fixture.both_filters ∅ []) = [defer]
  ∧ called handler
      (Fixture.world Fixture.both_filters Fixture.related
         [RequirerCSR.mk 1 Fixture.csr_api_a])
    = [request_certificate_creation (utf8 Fixture.csr_api_a) false]
  ∧ _on_certificate_creation_request Fixture.load_pem_x509_csr
      (CertificateCreationRequestEvent.mk Fixture.lone_surrogate 1 false)
      (Fixture.world Fixture.both_filters Fixture.related [])
    = (Raise UnicodeEncodeError,
       Fixture.world Fixture.both_filters Fixture.related []).
Proof.
  intros event handler. split; [|split].
  - apply (X7_creation_request_calls Fixture.load_pem_x509_csr event
             (Fixture.world Fixture.both_filters ∅ [])).
    reflexivity.
  - apply (X7_creation_request_calls Fixture.load_pem_x509_csr event
             (Fixture.world Fixture.both_filters Fixture.related
                [RequirerCSR.mk 1 Fixture.csr_api_a])).
    + by eexists.
    + reflexivity.
    + apply (_is_certificate_allowed_spec Fixture.load_pem_x509_csr
               (utf8 Fixture.csr_api_a) 1).
      vm_compute. reflexivity.
  - apply (X7_creation_request_calls Fixture.load_pem_x509_csr
             (CertificateCreationRequestEvent.mk Fixture.lone_surrogate 1 false)
             (Fixture.world Fixture.both_filters Fixture.related [])).
    + by eexists.
    + reflexivity.
Defined.

(** X8. Revocation is not gated by admission: the calls of the revocation
    request handler are the same in any two worlds that agree on the
    presence of the provider relation, whatever the configuration, the
    reserved identifiers and the outstanding requests.  With the provider
    relation it forwards the encoded CSR of the event, or raises
    [UnicodeEncodeError] without a call when the CSR string holds a
    surrogate; without it, it returns with the blocked status and no call.
    It never defers, consults no filter, logs nothing and leaves the
    relations alone. *)
Theorem X8_revocation_forwarded_unfiltered
    (event : CertificateRevocationRequestEvent.t) (w : World) :
  let s := CertificateRevocationRequestEvent.certificate_signing_request event in
  let handler := _on_certificate_revocation_request event in
  let w' := world_after handler w in
  (∀ w2, (is_Some (relations w2 !! RELATION_NAME_TO_TLS_PROVIDER)
          ↔ is_Some (relations w !! RELATION_NAME_TO_TLS_PROVIDER)) →
         called handler w2 = called handler w ∧ result handler w2 = result handler w)
  ∧ (defer ∉ called handler w)
  ∧ invoked handler w = []
  ∧ logged handler w = []
  ∧ relations w' = relations w
  ∧ (is_Some (relations w !! RELATION_NAME_TO_TLS_PROVIDER) →
     has_surrogate s = false →
     result handler w = Return tt
     ∧ called handler w = [request_certificate_revocation (utf8 s)]
     ∧ unit_status w' = unit_status w)
  ∧ (is_Some (relations w !! RELATION_NAME_TO_TLS_PROVIDER) →
     has_surrogate s = true →
     handler w = (Raise UnicodeEncodeError, w))
  ∧ (relations w !! RELATION_NAME_TO_TLS_PROVIDER = None →
     result handler w = Return tt
     ∧ called handler w = []
     ∧ unit_status w'
       = BlockedStatus "Need a relation to a TLS certificates provider").
Proof.
  intros s handler w'. subst handler w'.
  assert (∀ w0,
            _on_certificate_revocation_request event w0
            = match relations w0 !! RELATION_NAME_TO_TLS_PROVIDER with
              | None =>
                  (Return tt,
                   set_unit_status
                     (BlockedStatus "Need a relation to a TLS certificates provider")
                     w0)
              | Some _ =>
                  if has_surrogate s then (Raise UnicodeEncodeError, w0)
                  else (Return tt,
                        add_call (request_certificate_revocation (utf8 s)) w0)
              end) as Hunfold.
  { intros w0. unfold _on_certificate_revocation_request, encode.
    unfold bind at 1. rewrite get_relation_run. unfold relation_reference.
    fold s. destruct (relations w0 !! RELATION_NAME_TO_TLS_PROVIDER); [|done].
    by destruct (has_surrogate s). }
  split.
  { intros w2 Hsame. rewrite !called_revocation_request. unfold result.
    rewrite !Hunfold.
    destruct (relations w !! RELATION_NAME_TO_TLS_PROVIDER) as [p|],
      (relations w2 !! RELATION_NAME_TO_TLS_PROVIDER) as [p2|].
    - by destruct (has_surrogate s).
    - destruct (proj2 Hsame) as [? ?]; [by eexists|done].
    - destruct (proj1 Hsame) as [? ?]; [by eexists|done].
    - done. }
  rewrite called_revocation_request. fold s.
  unfold result, invoked, logged, world_after. rewrite Hunfold.
  destruct (relations w !! RELATION_NAME_TO_TLS_PROVIDER) as [p|];
    [destruct (has_surrogate s)|]; simpl; rewrite ?drop_all.
  - split; [by intros H%elem_of_nil|]. repeat split; try done; by intros [? ?].
  - split.
    { intros H%list_elem_of_singleton. done. }
    repeat split; try done; by intros [? ?].
  - split; [by intros H%elem_of_nil|]. repeat split; try done; by intros [? ?].
Qed.

Lemma X8_revocation_forwarded_unfiltered_witness :
  let event := CertificateRevocationRequestEvent.mk "never admitted" in
  let handler := _on_certificate_revocation_request event in
  let w := Fixture.world Fixture.both_filters Fixture.related [] in
  called handler w = [request_certificate_revocation (utf8 "never admitted")]
  ∧ called handler
      (Fixture.world ∅ Fixture.reserved_for_1 [RequirerCSR.mk 2 "never admitted"])
    = called handler w
  ∧ _on_certificate_revocation_request
      (CertificateRevocationRequestEvent.mk Fixture.lone_surrogate) w
    = (Raise UnicodeEncodeError, w)
  ∧ called handler (Fixture.world Fixture.both_filters ∅ []) = [].
Proof.
  intros event handler w.
  destruct (X8_revocation_forwarded_unfiltered event w)
    as (Hsame & _ & _ & _ & _ & Hforward & _).
  destruct (X8_revocation_forwarded_unfiltered
              (CertificateRevocationRequestEvent.mk Fixture.lone_surrogate) w)
    as (_ & _ & _ & _ & _ & _ & Hsurrogate & _).
  destruct (X8_revocation_forwarded_unfiltered event
              (Fixture.world Fixture.both_filters ∅ []))
    as (_ & _ & _ & _ & _ & _ & _ & Hblocked).
  split; [|split; [|split]].
  - apply Hforward; [by eexists | reflexivity].
  - apply Hsame. split; intros _; by eexists.
  - apply Hsurrogate; [by eexists | reflexivity].
  - apply Hblocked. reflexivity.
Defined.

(** ** Admission and the Reservation Table *)

Lemma active_filters_reference load_pem_x509_csr w w' :
  config w' = config w →
  relation_reference PEER_RELATION_NAME w' = relation_reference PEER_RELATION_NAME w →
  active_filters load_pem_x509_csr w' = active_filters load_pem_x509_csr w.
Proof.
  intros Hc Hr. rewrite !active_filters_eq. unfold enabled. by rewrite Hc, Hr.
Qed.

Lemma first_requester_in_chain load_pem_x509_csr w :
  enabled "limit-to-first-requester" w = true →
  LimitToFirstRequester load_pem_x509_csr (relation_reference PEER_RELATION_NAME w)
    ∈ active_filters load_pem_x509_csr w.
Proof.
  intros H. rewrite active_filters_eq, H. apply elem_of_app. right.
  apply list_elem_of_here.
Qed.

(** The relations after an admission: the stored document of the peer
    relation is the updated one when [LimitToFirstRequester] is switched
    on, and nothing changes otherwise. *)
Lemma _is_certificate_allowed_relations load_pem_x509_csr csr relation_id w :
  result (_is_certificate_allowed load_pem_x509_csr csr relation_id) w = Return true →
  let w' := world_after (_is_certificate_allowed load_pem_x509_csr csr relation_id) w in
  if enabled "limit-to-first-requester" w then
    ∃ r csr_object san,
      relations w !! PEER_RELATION_NAME = Some r
      ∧ load_pem_x509_csr csr = Some csr_object
      ∧ subject_alternative_name csr_object = Some san
      ∧ conflicts (reservation_table w) relation_id
          (subject_common_names csr_object) san = false
      ∧ relations w'
        = <[PEER_RELATION_NAME :=
              store_reserved_identifiers
                (updated_mapping (reservation_table w) san relation_id) r]>
            (relations w)
  else relations w' = relations w.
Proof.
  intros Hres w'. subst w'.
  destruct (_is_certificate_allowed_spec load_pem_x509_csr csr relation_id w)
    as (Hiff & _).
  apply Hiff in Hres as Hacc. clear Hiff.
  pose proof (active_filters_well_behaved load_pem_x509_csr w) as Hwb.
  destruct (all_evaluate_spec csr relation_id (requirer_csrs w) _ Hwb w)
    as (l & _ & Hr & _).
  unfold all_accept, result, world_after in *.
  rewrite _is_certificate_allowed_unfold in Hres |- *. cbv zeta in *.
  destruct (all_evaluate _ csr relation_id (requirer_csrs w) w) as [[[]|e] w1];
    simpl in Hres, Hr; try discriminate.
  clear Hres.
  destruct (enabled "limit-to-first-requester" w) eqn:Hfirst.
  - specialize (Hacc _ (first_requester_in_chain load_pem_x509_csr w Hfirst)).
    cbn [evaluate LimitToFirstRequester] in Hacc.
    destruct (LimitToFirstRequester_accepts_parsed _ _ _ _ _ _ Hacc)
      as (relation & csr_object & san & Href & Hcsr & Hsan).
    unfold relation_reference in Href.
    destruct (relations w !! PEER_RELATION_NAME) as [r|] eqn:Hpeer; [|done].
    injection Href as <-.
    assert (relation_reference PEER_RELATION_NAME w = Some PEER_RELATION_NAME) as Href.
    { unfold relation_reference. by rewrite Hpeer. }
    rewrite Href in Hacc.
    pose proof (LimitToFirstRequester_evaluate_result load_pem_x509_csr
                  PEER_RELATION_NAME r csr relation_id (requirer_csrs w) w
                  csr_object san Hpeer Hcsr Hsan) as Hev.
    unfold result in Hev. rewrite Hev in Hacc. clear Hev.
    injection Hacc as Hacc. apply negb_true_iff in Hacc.
    assert (reservation_table w
            = default ∅ (Relation.app_data r !! "reserved-identifiers")) as Htable.
    { unfold reservation_table. by rewrite Hpeer. }
    exists r, csr_object, san. rewrite Htable.
    split; [done|]. split; [done|]. split; [done|]. split; [done|].
    rewrite active_filters_eq, Hfirst, Href.
    assert (∀ wx, relations wx = relations w →
              relations (LimitToFirstRequester_callback load_pem_x509_csr
                           (Some PEER_RELATION_NAME) csr relation_id wx).2
              = <[PEER_RELATION_NAME :=
                    store_reserved_identifiers
                      (updated_mapping
                         (default ∅ (Relation.app_data r !! "reserved-identifiers"))
                         san relation_id) r]> (relations w)
              ∧ (LimitToFirstRequester_callback load_pem_x509_csr
                   (Some PEER_RELATION_NAME) csr relation_id wx).1 = Return tt)
      as Hcb.
    { intros wx Hx.
      rewrite (LimitToFirstRequester_callback_run _ _ r _ _ _ csr_object san)
        by (by rewrite ?Hx).
      simpl. by rewrite Hx. }
    destruct (enabled "limit-to-one-request" w); simpl app.
    + rewrite each_callback_cons. cbn [callback class_name LimitToOneRequest].
      unfold LimitToOneRequest_callback, ret. cbv beta iota.
      rewrite each_callback_cons. cbn [callback class_name LimitToFirstRequester].
      destruct (Hcb (add_invocation ("LimitToFirstRequester", Callback)
                       (add_invocation ("LimitToOneRequest", Callback) w1)) Hr)
        as [Hrel Hret].
      by destruct (LimitToFirstRequester_callback _ _ _ _ _) as [[[]|e] w2].
    + rewrite each_callback_cons. cbn [callback class_name LimitToFirstRequester].
      destruct (Hcb (add_invocation ("LimitToFirstRequester", Callback) w1) Hr)
        as [Hrel Hret].
      by destruct (LimitToFirstRequester_callback _ _ _ _ _) as [[[]|e] w2].
  - rewrite active_filters_eq, Hfirst.
    destruct (enabled "limit-to-one-request" w); simpl app.
    + by rewrite each_callback_cons.
    + done.
Qed.

Lemma reservation_table_insert_peer m r (rels : gmap string Relation.t) w :
  relations w = <[PEER_RELATION_NAME := store_reserved_identifiers m r]> rels →
  reservation_table w = m.
Proof.
  intros H. unfold reservation_table. rewrite H, lookup_insert_eq.
  unfold store_reserved_identifiers. simpl. by rewrite lookup_insert_eq.
Qed.

(** X3. When [_is_certificate_allowed] returns [True] with
    [LimitToFirstRequester] switched on, the Reservation Table afterwards
    gives every identifier of the CSR's Subject Alternative Name to the
    requesting relation and every other identifier the owner it had; the
    identifiers it newly gives away had no owner or already belonged to the
    requester.  With the filter switched off the relations are unchanged. *)
Theorem X3_table_after_admission
    (load_pem_x509_csr : bytes → option CertificateSigningRequest)
    (csr : bytes) (relation_id : Z) (w : World) :
  let decision := _is_certificate_allowed load_pem_x509_csr csr relation_id in
  let w' := world_after decision w in
  result decision w = Return true →
  (enabled "limit-to-first-requester" w = false → relations w' = relations w)
  ∧ (enabled "limit-to-first-requester" w = true →
     ∃ csr_object san,
       load_pem_x509_csr csr = Some csr_object
       ∧ subject_alternative_name csr_object = Some san
       ∧ (∀ kind value,
            owner (reservation_table w') kind value
            = if decide ((kind, value) ∈ san_identifiers san)
              then Some relation_id
              else owner (reservation_table w) kind value)
       ∧ (∀ kind value t,
            (kind, value) ∈ san_identifiers san →
            owner (reservation_table w) kind value = Some t → t = relation_id)).
Proof.
  intros decision w' Hres. subst decision w'.
  pose proof (_is_certificate_allowed_relations _ _ _ _ Hres) as Hrel.
  cbv zeta in Hrel.
  destruct (enabled "limit-to-first-requester" w); split; try done.
  intros _. destruct Hrel as (r & csr_object & san & Hr & Hcsr & Hsan & Hno & Hrel).
  exists csr_object, san. split; [done|]. split; [done|]. split.
  - intros kind value.
    rewrite (reservation_table_insert_peer _ _ _ _ Hrel).
    apply owner_updated_mapping.
  - intros kind value t Hin Hown.
    destruct (decide (t = relation_id)) as [|Hne]; [done|].
    apply not_true_iff_false in Hno. destruct Hno.
    apply conflicts_identifier_set. exists kind, value, t.
    split; [by apply san_identifiers_covered|done].
Qed.

Lemma X3_table_after_admission_witness :
  let decision :=
    _is_certificate_allowed Fixture.load_pem_x509_csr (utf8 Fixture.csr_cn_clash) 1 in
  let w := Fixture.world Fixture.only_first Fixture.related [] in
  result decision w = Return true
  ∧ ∃ csr_object san,
      Fixture.load_pem_x509_csr (utf8 Fixture.csr_cn_clash) = Some csr_object
      ∧ subject_alternative_name csr_object = Some san
      ∧ ∀ kind value,
          owner (reservation_table (world_after decision w)) kind value
          = if decide ((kind, value) ∈ san_identifiers san) then Some 1
            else owner (reservation_table w) kind value.
Proof.
  intros decision w.
  assert (result decision w = Return true) as H by (vm_compute; reflexivity).
  split; [exact H|].
  destruct (proj2 (X3_table_after_admission Fixture.load_pem_x509_csr
                     (utf8 Fixture.csr_cn_clash) 1 w H) eq_refl)
    as (csr_object & san & H1 & H2 & H3 & _).
  exists csr_object, san. split; [exact H1|]. split; [exact H2|exact H3].
Defined.

Lemma run_reservations_kept load_pem_x509_csr w w' :
  rtc (step load_pem_x509_csr) w w' → reservations_kept w w'.
Proof.
  induction 1 as [w|w w1 w2 Hstep _ IH]; [by intros kind value t|].
  intros kind value t Hown. apply IH.
  by apply (step_reservations_kept _ _ _ Hstep).
Qed.

Lemma owner_peer_present w kind value t :
  owner (reservation_table w) kind value = Some t →
  is_Some (relations w !! PEER_RELATION_NAME).
Proof.
  unfold reservation_table.
  destruct (relations w !! PEER_RELATION_NAME); [by eexists|].
  unfold owner. by rewrite lookup_empty.
Qed.

(** A readable CSR that names an identifier of another relation is
    denied by the controller whenever [LimitToFirstRequester] is switched
    on, whatever else the chain holds. *)
Lemma claimed_identifier_denied
    load_pem_x509_csr csr relation_id w csr_object san kind value t :
  enabled "limit-to-first-requester" w = true →
  load_pem_x509_csr csr = Some csr_object →
  subject_alternative_name csr_object = Some san →
  (kind, value) ∈ identifier_set (subject_common_names csr_object) san →
  owner (reservation_table w) kind value = Some t →
  t ≠ relation_id →
  result (_is_certificate_allowed load_pem_x509_csr csr relation_id) w = Return false.
Proof.
  intros Hfirst Hcsr Hsan Hin Hown Hne.
  destruct (owner_peer_present _ _ _ _ Hown) as [r Hr].
  assert (result (LimitToFirstRequester_evaluate load_pem_x509_csr
                    (relation_reference PEER_RELATION_NAME w) csr relation_id
                    (requirer_csrs w)) w = Return false) as Hdeny.
  { unfold relation_reference. rewrite Hr.
    rewrite (LimitToFirstRequester_evaluate_result _ _ r _ _ _ _ csr_object san)
      by done.
    f_equal. apply negb_false_iff, conflicts_identifier_set.
    exists kind, value, t. unfold reservation_table in Hown. by rewrite Hr in Hown. }
  destruct (_is_certificate_allowed_spec load_pem_x509_csr csr relation_id w)
    as (Hiff & _).
  pose proof (_is_certificate_allowed_raises load_pem_x509_csr csr relation_id w)
    as Hraise.
  destruct (result (_is_certificate_allowed load_pem_x509_csr csr relation_id) w)
    as [[]|e]; [|done|].
  - apply proj1 in Hiff. specialize (Hiff eq_refl).
    specialize (Hiff _ (first_requester_in_chain load_pem_x509_csr w Hfirst)).
    cbn [evaluate LimitToFirstRequester] in Hiff. congruence.
  - destruct (proj1 (Hraise e) eq_refl) as (_ & _ & _ & [[? _]|(c & ? & ? & _)]);
      congruence.
Qed.

(** X2. Once an identifier has an owner in the Reservation Table, then
    after any run of the system, with [LimitToFirstRequester] switched on,
    a readable CSR of another relation that names this identifier (in its
    Subject Alternative Name under the identifier's kind, or as a subject
    common name) is denied whichever filters are in the chain: the
    controller returns [False], the handler forwards nothing and the table
    stays as it is. *)
Theorem X2_first_claim_exclusive
    (load_pem_x509_csr : bytes → option CertificateSigningRequest)
    (w w' : World) (event : CertificateCreationRequestEvent.t)
    (csr_object : CertificateSigningRequest) (san : list GeneralName)
    (kind value : string) (T1 : Z) :
  let csr := utf8 (CertificateCreationRequestEvent.certificate_signing_request event) in
  let T2 := CertificateCreationRequestEvent.relation_id event in
  let handler := _on_certificate_creation_request load_pem_x509_csr event in
  rtc (step load_pem_x509_csr) w w' →
  owner (reservation_table w) kind value = Some T1 →
  T1 ≠ T2 →
  enabled "limit-to-first-requester" w' = true →
  load_pem_x509_csr csr = Some csr_object →
  subject_alternative_name csr_object = Some san →
  (kind, value) ∈ identifier_set (subject_common_names csr_object) san →
  result (_is_certificate_allowed load_pem_x509_csr csr T2) w' = Return false
  ∧ (∀ c is_ca, request_certificate_creation c is_ca ∉ called handler w')
  ∧ relations (world_after handler w') = relations w'.
Proof.
  intros csr T2 handler Hrun Hown Hne Hfirst Hcsr Hsan Hin. subst handler.
  apply (run_reservations_kept _ _ _ Hrun) in Hown.
  pose proof (claimed_identifier_denied _ _ T2 _ _ _ _ _ _
                Hfirst Hcsr Hsan Hin Hown Hne) as Hdeny.
  destruct (_is_certificate_allowed_spec load_pem_x509_csr csr T2 w')
    as (_ & _ & _ & _ & _ & Hdenied & _).
  destruct Hdenied as [_ Hrel]; [by rewrite Hdeny|].
  split; [exact Hdeny|]. split.
  - intros c is_ca. rewrite called_creation_request. cbv zeta.
    fold csr T2. rewrite Hdeny.
    destruct (relations w' !! RELATION_NAME_TO_TLS_PROVIDER);
      [destruct (has_surrogate _)|]; intros H;
      repeat (apply elem_of_cons in H as [H|H]; [done|]); by apply elem_of_nil in H.
  - unfold world_after, result in *.
    rewrite _on_certificate_creation_request_unfold. cbv zeta. fold csr T2.
    destruct (relations w' !! RELATION_NAME_TO_TLS_PROVIDER); [|done].
    destruct (has_surrogate _); [done|].
    by destruct (_is_certificate_allowed _ _ _ _) as [[[]|e] w1].
Qed.

Lemma X2_first_claim_exclusive_witness :
  let load := Fixture.load_pem_x509_csr in
  let w0 := Fixture.world Fixture.both_filters Fixture.related
              [RequirerCSR.mk 1 Fixture.csr_api_a] in
  let w1 := world_after
              (handle load (certificate_creation_request
                 (CertificateCreationRequestEvent.mk Fixture.csr_api_a 1 false))) w0 in
  let w2 := world_after
              (handle load (certificate_revocation_request
                 (CertificateRevocationRequestEvent.mk Fixture.csr_api_a))) w1 in
  owner (reservation_table w1) "dns" "api.a.com" = Some 1
  ∧ result (_is_certificate_allowed load (utf8 Fixture.csr_cn_clash) 2) w2
    = Return false.
Proof.
  intros load w0 w1 w2.
  assert (owner (reservation_table w1) "dns" "api.a.com" = Some 1) as H1
    by (vm_compute; reflexivity).
  split; [exact H1|].
  apply (X2_first_claim_exclusive load w1 w2
           (CertificateCreationRequestEvent.mk Fixture.csr_cn_clash 2 false)
           {| subject_common_names := ["api.a.com"];
              subject_alternative_name := Some [DNSName "other.example"] |}
           [DNSName "other.example"] "dns" "api.a.com" 1).
  - eapply rtc_l; [apply step_handle|]. apply rtc_refl.
  - exact H1.
  - done.
  - vm_compute. reflexivity.
  - reflexivity.
  - reflexivity.
  - apply list_elem_of_In. vm_compute. auto.
Defined.

Lemma provider_is_not_peer : RELATION_NAME_TO_TLS_PROVIDER ≠ PEER_RELATION_NAME.
Proof. discriminate. Qed.

(** X13. Handling an admitted creation request (its CSR string encodes
    and the controller returns [True] on its bytes) a second time, with
    the outstanding requests and the configuration as they were, admits it
    again: the controller returns [True], the CSR is forwarded once more,
    and the relations, hence the Reservation Table, are left exactly as
    the first handling left them. *)
Theorem X13_admission_replay
    (load_pem_x509_csr : bytes → option CertificateSigningRequest)
    (event : CertificateCreationRequestEvent.t) (w : World) :
  let csr := utf8 (CertificateCreationRequestEvent.certificate_signing_request event) in
  let relation_id := CertificateCreationRequestEvent.relation_id event in
  let handler := _on_certificate_creation_request load_pem_x509_csr event in
  is_Some (relations w !! RELATION_NAME_TO_TLS_PROVIDER) →
  has_surrogate
    (CertificateCreationRequestEvent.certificate_signing_request event) = false →
  result (_is_certificate_allowed load_pem_x509_csr csr relation_id) w = Return true →
  let w1 := world_after handler w in
  result (_is_certificate_allowed load_pem_x509_csr csr relation_id) w1 = Return true
  ∧ called handler w1
    = [request_certificate_creation csr (CertificateCreationRequestEvent.is_ca event)]
  ∧ relations (world_after handler w1) = relations w1.
Proof.
  intros csr relation_id handler [p Hp] Hs Hres w1.
  set (decision := _is_certificate_allowed load_pem_x509_csr csr relation_id) in *.
  set (wa := world_after decision w).
  assert (w1 = add_call (request_certificate_creation
                           csr (CertificateCreationRequestEvent.is_ca event)) wa)
    as Hw1.
  { subst w1 handler wa. unfold world_after, result in *.
    rewrite _on_certificate_creation_request_unfold, Hp. cbv zeta.
    rewrite Hs. fold csr relation_id decision.
    by destruct (decision w) as [[[]|e] wx]; simplify_eq/=. }
  destruct (_is_certificate_allowed_spec load_pem_x509_csr csr relation_id w)
    as (Hiff & _ & Hc & Hq & _).
  fold decision wa in Hiff, Hc, Hq.
  apply Hiff in Hres as Hacc. clear Hiff.
  pose proof (_is_certificate_allowed_relations _ _ _ _ Hres) as Hrel.
  cbv zeta in Hrel. fold decision wa in Hrel.
  assert (config w1 = config w) as Hc1 by (by rewrite Hw1).
  assert (requirer_csrs w1 = requirer_csrs w) as Hq1 by (by rewrite Hw1).
  assert (relations w1 = relations wa) as Hr1 by (by rewrite Hw1).
  (* the second decision *)
  assert (relation_reference PEER_RELATION_NAME w1
          = relation_reference PEER_RELATION_NAME w
          ∧ relations w1 !! RELATION_NAME_TO_TLS_PROVIDER = Some p
          ∧ all_accept (active_filters load_pem_x509_csr w) csr relation_id w1
          ∧ (result decision w1 = Return true →
             relations (world_after decision w1) = relations w1))
    as (Href & Hp1 & Hacc1 & Hsame).
  { unfold relation_reference. rewrite Hr1.
    destruct (enabled "limit-to-first-requester" w) eqn:Hfirst.
    - destruct Hrel as (r & csr_object & san & Hr & Hcsr & Hsan & Hno & Hrel).
      set (table1 := updated_mapping (reservation_table w) san relation_id) in *.
      set (r1 := store_reserved_identifiers table1 r) in *.
      assert (Relation.app_data r1 !! "reserved-identifiers" = Some table1) as Hdata.
      { unfold r1, store_reserved_identifiers. simpl. apply lookup_insert_eq. }
      assert (relations w1 !! PEER_RELATION_NAME = Some r1) as Hpeer1.
      { rewrite Hr1, Hrel. apply lookup_insert_eq. }
      rewrite Hrel, lookup_insert_eq, Hr,
        (lookup_insert_ne _ _ _ _ (not_eq_sym provider_is_not_peer)).
      split; [done|]. split; [done|]. split.
      + intros f Hin. rewrite active_filters_eq, Hfirst in Hin.
        apply elem_of_app in Hin as [Hin|Hin].
        * destruct (enabled "limit-to-one-request" w) eqn:Hone;
            [|by apply elem_of_nil in Hin].
          apply list_elem_of_singleton in Hin as ->.
          specialize (Hacc LimitToOneRequest).
          rewrite active_filters_eq, Hone in Hacc.
          specialize (Hacc (list_elem_of_here _ _)).
          cbn [evaluate LimitToOneRequest] in *.
          rewrite LimitToOneRequest_evaluate_result in *. by rewrite Hq1.
        * apply list_elem_of_singleton in Hin as ->.
          cbn [evaluate LimitToFirstRequester].
          unfold relation_reference. rewrite Hr.
          rewrite (LimitToFirstRequester_evaluate_result _ _ r1 _ _ _ _ csr_object san)
            by done.
          rewrite Hdata. simpl. unfold table1.
          by rewrite conflicts_after_update.
      + intros Hres1.
        pose proof (_is_certificate_allowed_relations _ _ _ _ Hres1) as Hrel1.
        cbv zeta in Hrel1. fold decision in Hrel1.
        unfold enabled in Hrel1, Hfirst. rewrite Hc1 in Hrel1.
        rewrite Hfirst in Hrel1.
        destruct Hrel1 as (r' & c' & s' & Hr' & Hcsr' & Hsan' & _ & Hrel1).
        rewrite Hrel1.
        rewrite Hpeer1 in Hr'. injection Hr' as <-.
        rewrite Hcsr in Hcsr'. injection Hcsr' as <-.
        rewrite Hsan in Hsan'. injection Hsan' as <-.
        rewrite (reservation_table_insert_peer table1 r (relations w) w1)
          by (by rewrite Hr1, Hrel).
        unfold table1 at 1. rewrite updated_mapping_idempotent. fold table1.
        rewrite (store_reserved_identifiers_same _ r1 Hdata).
        rewrite Hr1, Hrel. apply insert_insert_eq.
    - rewrite Hrel, Hp. split; [done|]. split; [done|]. split.
      + intros f Hin. specialize (Hacc f Hin).
        rewrite active_filters_eq, Hfirst, app_nil_r in Hin.
        destruct (enabled "limit-to-one-request" w); [|by apply elem_of_nil in Hin].
        apply list_elem_of_singleton in Hin as ->.
        cbn [evaluate LimitToOneRequest] in *.
        rewrite LimitToOneRequest_evaluate_result in *. by rewrite Hq1.
      + intros Hres1.
        pose proof (_is_certificate_allowed_relations _ _ _ _ Hres1) as Hrel1.
        cbv zeta in Hrel1. fold decision in Hrel1.
        unfold enabled in Hrel1, Hfirst. rewrite Hc1 in Hrel1.
        rewrite Hfirst in Hrel1. by rewrite Hrel1, Hr1, Hrel. }
  assert (result decision w1 = Return true) as Hres1.
  { apply (_is_certificate_allowed_spec load_pem_x509_csr csr relation_id w1).
    by rewrite (active_filters_reference _ w w1). }
  split; [exact Hres1|]. split.
  - subst handler. rewrite called_creation_request. cbv zeta.
    rewrite Hs. fold csr relation_id decision. by rewrite Hp1, Hres1.
  - specialize (Hsame Hres1). subst handler. unfold world_after, result in *.
    rewrite _on_certificate_creation_request_unfold, Hp1. cbv zeta.
    rewrite Hs. fold csr relation_id decision.
    by destruct (decision w1) as [[[]|e] wx]; simplify_eq/=.
Qed.

Lemma X13_admission_replay_witness :
  let event := CertificateCreationRequestEvent.mk Fixture.csr_api_a 1 false in
  let handler := _on_certificate_creation_request Fixture.load_pem_x509_csr event in
  let w := Fixture.world Fixture.both_filters Fixture.related
             [RequirerCSR.mk 1 Fixture.csr_api_a] in
  let w1 := world_after handler w in
  called handler w1
  = [request_certificate_creation (utf8 Fixture.csr_api_a) false]
  ∧ relations (world_after handler w1) = relations w1.
Proof.
  intros event handler w w1.
  apply (X13_admission_replay Fixture.load_pem_x509_csr event w).
  - by eexists.
  - reflexivity.
  - vm_compute. reflexivity.
Defined.

(** ** Two edges of the chain *)

(** X14. The verdict of [LimitToFirstRequester.evaluate] does not depend
    on the outstanding requests, nor on anything in the world but the
    relations; and through a peer relation that holds no document yet it
    accepts every CSR that parses and carries the extension, whoever asks. *)
Theorem X14_first_requester_reads_table_only
    (load_pem_x509_csr : bytes → option CertificateSigningRequest)
    (_relation : option string) (csr : bytes) (relation_id : Z)
    (requirer_csrs requirer_csrs' : list RequirerCSR.t) (w w' : World) :
  let F := LimitToFirstRequester load_pem_x509_csr _relation in
  (relations w' = relations w →
   result (evaluate F csr relation_id requirer_csrs') w'
   = result (evaluate F csr relation_id requirer_csrs) w)
  ∧ (∀ relation r csr_object san,
       _relation = Some relation →
       relations w !! relation = Some r →
       Relation.app_data r !! "reserved-identifiers" = None →
       load_pem_x509_csr csr = Some csr_object →
       subject_alternative_name csr_object = Some san →
       result (evaluate F csr relation_id requirer_csrs) w = Return true).
Proof.
  intros F. subst F. cbn [evaluate LimitToFirstRequester]. split.
  - intros Hrel.
    rewrite (LimitToFirstRequester_evaluate_reads _ _ _ _ requirer_csrs' w w' Hrel).
    reflexivity.
  - intros relation r csr_object san -> Hr Hnone Hcsr Hsan.
    rewrite (LimitToFirstRequester_evaluate_result _ _ r _ _ _ _ csr_object san)
      by done.
    rewrite Hnone. simpl. f_equal. apply negb_true_iff, not_true_iff_false.
    intros H. apply conflicts_identifier_set in H as (kind & value & t & _ & Hown & _).
    unfold owner in Hown. by rewrite lookup_empty in Hown.
Qed.

Lemma X14_first_requester_reads_table_only_witness :
  let F := LimitToFirstRequester Fixture.load_pem_x509_csr (Some PEER_RELATION_NAME) in
  result (evaluate F (utf8 Fixture.csr_api_a) 5 [])
    (Fixture.world Fixture.only_first Fixture.related []) = Return true.
Proof.
  intros F.
  apply (proj2 (X14_first_requester_reads_table_only
                  Fixture.load_pem_x509_csr (Some PEER_RELATION_NAME)
                  (utf8 Fixture.csr_api_a) 5 [] []
                  (Fixture.world Fixture.only_first Fixture.related [])
                  (Fixture.world Fixture.only_first Fixture.related []))
          PEER_RELATION_NAME Fixture.empty_relation
          {| subject_common_names := ["a.example"];
             subject_alternative_name := Some [DNSName "api.a.com"] |}
          [DNSName "api.a.com"]); reflexivity.
Defined.

(** X15. [all] stops at the first [False]: with both filters switched on
    and at least two outstanding requests of the relation, the controller
    returns [False] for any bytes, also bytes [LimitToFirstRequester] could
    not read; only [LimitToOneRequest.evaluate] has been called, one
    warning has been logged and the relations are unchanged. *)
Theorem X15_short_circuit_before_parsing
    (load_pem_x509_csr : bytes → option CertificateSigningRequest)
    (csr : bytes) (relation_id : Z) (w : World) :
  let decision := _is_certificate_allowed load_pem_x509_csr csr relation_id in
  enabled "limit-to-one-request" w = true →
  enabled "limit-to-first-requester" w = true →
  (2 ≤ length (relevant_csrs relation_id (requirer_csrs w)))%nat →
  result decision w = Return false
  ∧ invoked decision w = [("LimitToOneRequest", Evaluate)]
  ∧ (∃ record, levelname record = WARNING ∧ logged decision w = [record])
  ∧ relations (world_after decision w) = relations w.
Proof.
  intros decision Hone Hfirst Hcount. subst decision.
  unfold result, invoked, logged, world_after.
  rewrite _is_certificate_allowed_unfold, active_filters_eq, Hone, Hfirst.
  cbv zeta. simpl app. rewrite all_evaluate_cons.
  cbn [evaluate class_name LimitToOneRequest]. unfold LimitToOneRequest_evaluate.
  destruct (decide _) as [_|Hn]; [|lia]. run.
  rewrite !drop_app_length. split; [done|]. split; [done|]. split; [|done].
  eexists. split; [|reflexivity]. reflexivity.
Qed.

Lemma X15_short_circuit_before_parsing_witness :
  let w := Fixture.world Fixture.both_filters Fixture.related
             [RequirerCSR.mk 1 "csr-A"; RequirerCSR.mk 1 "csr-B"] in
  result (_is_certificate_allowed Fixture.load_pem_x509_csr
            (utf8 Fixture.not_a_csr) 1) w = Return false.
Proof.
  intros w.
  apply (X15_short_circuit_before_parsing Fixture.load_pem_x509_csr
           (utf8 Fixture.not_a_csr) 1 w).
  - reflexivity.
  - reflexivity.
  - simpl. lia.
Defined.
